(** * VideoMerger: the media processing pipeline of [backend/src/media.js]
      and the [/merge] route of [backend/src/index.js]

    The pipeline drives an external engine (ffprobe / ffmpeg through
    fluent-ffmpeg) and the file system.  Both are modelled as an explicit
    world: a finite map from paths to file contents and a log of the I/O
    events issued so far.  What the engine answers is not decided by the
    program, so it enters as two oracles, variables of the sections below.
    A promise is modelled by its final state: resolved, rejected, or never
    settled. *)

From Stdlib Require Import ZArith Lia.
From stdpp Require Import base strings pretty list gmap.

Set Default Proof Using "Type".
Local Open Scope string_scope.
Local Open Scope list_scope.
Local Open Scope nat_scope.

(** ** Data model *)

(** A multer file object; only the two fields the backend reads. *)
Record File := { originalname : string; path : string }.

(** One entry of [metadata.streams].  [width] and [height] are absent
    ([undefined]) on streams that are not pictures. *)
Record Stream := {
  codec_type : string;
  codec_name : string;
  width : option Z;
  height : option Z
}.

(** The ffprobe result; [metadata.format] is only written to the console. *)
Record Metadata := { streams : list Stream }.

(** A fluent-ffmpeg command: every input with the options attached to it,
    the output options and the output path. *)
Record Command := {
  inputs : list (string * list string);
  outputOptions : list string;
  output : string
}.

(** What a file holds: an upload, text written by [fs.writeFile], or the
    product of an ffmpeg command. *)
Inductive Content :=
| Blob (tag : string)
| Text (data : string)
| Product (cmd : Command).

(** The I/O events of the backend, in the order they are issued. *)
Inductive Event :=
| Probe (file : string)
| Run (cmd : Command)
| WriteFile (file : string) (data : string)
| Unlink (file : string).

Record World := { files : gmap string Content; trace : list Event }.

(** How an external process ends: exit status zero with its result, a
    failure with the diagnostic fluent-ffmpeg puts in [err.message], or
    not at all. *)
Inductive Exit (A : Type) :=
| Exited0 (a : A)
| ExitedError (diagnostic : string)
| NeverExits.
Arguments Exited0 {A} a.
Arguments ExitedError {A} diagnostic.
Arguments NeverExits {A}.

(** ** Promises *)

(** The final state of a promise; [Rejected] carries [error.message]. *)
Inductive Outcome (A : Type) :=
| Resolved (a : A)
| Rejected (message : string)
| Pending.
Arguments Resolved {A} a.
Arguments Rejected {A} message.
Arguments Pending {A}.

Definition Async (A : Type) : Type := World → Outcome A * World.

(** The world after one more event. *)
Definition log (e : Event) (w : World) : World :=
  {| files := files w; trace := trace w ++ [e] |}.

(** The world after a file was created or replaced. *)
Definition store (file : string) (c : Content) (w : World) : World :=
  {| files := <[file := c]> (files w); trace := trace w |}.

(** The world after a file was removed. *)
Definition remove (file : string) (w : World) : World :=
  {| files := delete file (files w); trace := trace w |}.

Definition resolve {A} (a : A) : Async A := λ w, (Resolved a, w).
Definition throw {A} (message : string) : Async A := λ w, (Rejected message, w).

(** [await m; k] *)
Definition await {A B} (m : Async A) (k : A → Async B) : Async B :=
  λ w, match m w with
       | (Resolved a, w') => k a w'
       | (Rejected e, w') => (Rejected e, w')
       | (Pending, w') => (Pending, w')
       end.

(** [try { m } catch (e) { h e }], also [m.catch(h)] *)
Definition try_catch {A} (m : Async A) (h : string → Async A) : Async A :=
  λ w, match m w with
       | (Rejected e, w') => h e w'
       | r => r
       end.

Global Instance async_ret : MRet Async := @resolve.
Global Instance async_bind : MBind Async := λ A B k m, await m k.

(** ** JavaScript string and array helpers *)

(** The line feed, written [\n] in the source. *)
Definition newline : string := String (Ascii.ascii_of_nat 10) "".

(** [Array.prototype.join] *)
Fixpoint join (sep : string) (l : list string) : string :=
  match l with
  | [] => ""
  | [x] => x
  | x :: rest => x +:+ sep +:+ join sep rest
  end.

(** [Array.prototype.includes] on an array of strings *)
Definition includes (l : list string) (x : string) : bool :=
  existsb (String.eqb x) l.

(** [a > b] where [a] may be [undefined]: the comparison is then false. *)
Definition js_gt (a : option Z) (b : Z) : bool :=
  match a with
  | Some n => Z.ltb b n
  | None => false
  end.


(** [path.join(dir, name)] for a normalized directory and a plain file
    name, the only way the backend calls it. *)
Definition path_join (dir name : string) : string := dir +:+ "/" +:+ name.

(** ** media.js *)

Module Media.
Section Pipeline.

(** [process.cwd()] *)
Variable cwd : string.

(** The engine, as the world the call is made in decides it. *)
Variable ffprobe : World → string → Exit Metadata.
Variable ffmpeg : World → Command → Exit unit.

Definition UPLOAD_DIR : string := path_join cwd "uploads".
Definition OUTPUT_DIR : string := path_join cwd "outputs".
Definition TEMP_DIR : string := path_join cwd "temp".

(** Directories are not part of the world; [fs.mkdir] with
    [recursive: true] has nothing to do. *)
Definition ensureDirectories : Async unit := resolve tt.

(** [fs.writeFile] creates or replaces the file; it is taken to succeed. *)
Definition writeFile (file data : string) : Async unit :=
  λ w, (Resolved tt, store file (Text data) (log (WriteFile file data) w)).

(** [fs.unlink] rejects when there is no such file. *)
Definition unlink (file : string) : Async unit :=
  λ w, let w' := remove file (log (Unlink file) w) in
       match files w !! file with
       | Some _ => (Resolved tt, w')
       | None => (Rejected ("ENOENT: no such file or directory, unlink '"
                            +:+ file +:+ "'"), w')
       end.

Definition getVideoMetadata (filePath : string) : Async Metadata :=
  λ w, let w' := log (Probe filePath) w in
       match ffprobe w filePath with
       | Exited0 metadata => (Resolved metadata, w')
       | ExitedError err => (Rejected err, w')
       | NeverExits => (Pending, w')
       end.

(** [ffmpeg(...)....run()] wrapped in a promise: the [end] event
    resolves, the [error] event rejects.  A finished command leaves its
    output file (fluent-ffmpeg passes [-y]); a failed one is taken to
    leave none. *)
Definition run (cmd : Command) : Async unit :=
  λ w, let w' := log (Run cmd) w in
       match ffmpeg w cmd with
       | Exited0 _ => (Resolved tt, store (output cmd) (Product cmd) w')
       | ExitedError err => (Rejected err, w')
       | NeverExits => (Pending, w')
       end.

Definition supportedVideoCodecs : list string := ["h264"; "hevc"; "vp8"; "vp9"].
Definition supportedAudioCodecs : list string := ["aac"; "mp3"; "opus"; "vorbis"].

Definition noVideoStream (file : File) : string :=
  "No video stream found in " +:+ originalname file.
Definition unsupportedVideoCodec (file : File) : string :=
  "Unsupported video codec in " +:+ originalname file
  +:+ ". Supported codecs: " +:+ join ", " supportedVideoCodecs.
Definition resolutionTooHigh (file : File) : string :=
  "Video resolution too high in " +:+ originalname file
  +:+ ". Maximum supported: 4K (3840x2160)".
Definition noAudioStream (file : File) : string :=
  "No audio stream found in " +:+ originalname file.
Definition unsupportedAudioCodec (file : File) : string :=
  "Unsupported audio codec in " +:+ originalname file
  +:+ ". Supported codecs: " +:+ join ", " supportedAudioCodecs.

(** The body of the loop of [validateVideos]. *)
Definition validateVideo (file : File) : Async unit :=
  try_catch
    (metadata ← getVideoMetadata (path file);
     match find (λ s, String.eqb (codec_type s) "video") (streams metadata) with
     | None => throw (noVideoStream file)
     | Some videoStream =>
         if negb (includes supportedVideoCodecs (codec_name videoStream))
         then throw (unsupportedVideoCodec file)
         else if js_gt (width videoStream) 3840 || js_gt (height videoStream) 2160
         then throw (resolutionTooHigh file)
         else resolve tt
     end)
    (λ err, throw err).

Fixpoint validateVideos (files : list File) : Async unit :=
  match files with
  | [] => resolve tt
  | file :: rest => validateVideo file ;; validateVideos rest
  end.

Definition validateMusic (file : File) : Async unit :=
  try_catch
    (metadata ← getVideoMetadata (path file);
     match find (λ s, String.eqb (codec_type s) "audio") (streams metadata) with
     | None => throw (noAudioStream file)
     | Some audioStream =>
         if negb (includes supportedAudioCodecs (codec_name audioStream))
         then throw (unsupportedAudioCodec file)
         else resolve tt
     end)
    (λ err, throw err).

(** The option set of [processVideo]. *)
Definition processOptions : list string :=
  ["-c:v libx264"; "-preset medium"; "-crf 23"; "-movflags +faststart";
   "-pix_fmt yuv420p"; "-r 30"; "-vsync cfr"; "-async 1"].

Definition processCommand (inputPath outputPath : string) : Command :=
  {| inputs := [(inputPath, [])];
     outputOptions := processOptions;
     output := outputPath |}.

Definition processVideo (inputPath outputPath : string) : Async unit :=
  run (processCommand inputPath outputPath).

Definition processedPath (i : nat) : string :=
  path_join TEMP_DIR ("processed_" +:+ pretty i +:+ ".mp4").
Definition listPath : string := path_join TEMP_DIR "filelist.txt".
Definition concatenatedPath : string := path_join TEMP_DIR "concatenated.mp4".
Definition outputPath : string := path_join OUTPUT_DIR "merged.mp4".

(** The normalization loop: [videoFiles] is what is left of the array
    from index [i] on, [processedVideos] the paths pushed so far. *)
Fixpoint processVideos (videoFiles : list File) (i : nat)
    (processedVideos : list string) : Async (list string) :=
  match videoFiles with
  | [] => resolve processedVideos
  | video :: rest =>
      processVideo (path video) (processedPath i);;
      processVideos rest (S i) (processedVideos ++ [processedPath i])
  end.

Definition fileList (processedVideos : list string) : string :=
  join newline (map (λ file, "file '" +:+ file +:+ "'") processedVideos).

Definition concatInputOptions : list string := ["-f concat"; "-safe 0"].
Definition concatOptions : list string :=
  ["-c:v libx264"; "-preset medium"; "-crf 23"; "-pix_fmt yuv420p";
   "-r 30"; "-vsync cfr"; "-async 1"; "-movflags +faststart"].

Definition concatCommand : Command :=
  {| inputs := [(listPath, concatInputOptions)];
     outputOptions := concatOptions;
     output := concatenatedPath |}.

Definition muxOptions : list string :=
  ["-c:v copy"; "-c:a aac"; "-b:a 192k"; "-shortest";
   "-map 0:v:0"; "-map 1:a:0"; "-movflags +faststart"].

Definition muxCommand (musicFile : File) : Command :=
  {| inputs := [(concatenatedPath, []); (path musicFile, [])];
     outputOptions := muxOptions;
     output := outputPath |}.

(** [fs.unlink(file).catch(err => console.error(...))] for every file of
    the array handed to [Promise.all], taken in array order. *)
Fixpoint unlinkAll (l : list string) : Async unit :=
  match l with
  | [] => resolve tt
  | file :: rest =>
      try_catch (unlink file) (λ _, resolve tt);;
      unlinkAll rest
  end.

Definition mergeVideosWithMusic (videoFiles : list File) (musicFile : File)
    : Async string :=
  try_catch
    (ensureDirectories;;
     validateVideos videoFiles;;
     validateMusic musicFile;;
     processedVideos ← processVideos videoFiles 0 [];
     writeFile listPath (fileList processedVideos);;
     run concatCommand;;
     run (muxCommand musicFile);;
     unlinkAll (processedVideos ++ [listPath; concatenatedPath]);;
     resolve outputPath)
    (λ error, throw ("Video merge failed: " +:+ error)).

End Pipeline.
End Media.

(** ** index.js *)

Module Server.

(** The file parts of a multipart body in arrival order, each under its
    field name; [None] is a request that is not multipart. *)
Definition Request : Type := option (list (string * File)).

Inductive Response :=
| Json (status : nat) (error : string) (details : option string)
| Download (file : string) (filename : string).

(** multer's [upload.fields]: a part whose field is not listed, or that
    would take its field past [maxCount], stops the upload with the
    error [Unexpected field]; otherwise the part is pushed on
    [req.files[fieldname]].  The files are taken as already stored under
    the [path] they carry. *)
Fixpoint appendFiles (fields : list (string * nat))
    (parts : list (string * File)) (reqFiles : gmap string (list File))
    : string + gmap string (list File) :=
  match parts with
  | [] => inr reqFiles
  | (fieldname, file) :: rest =>
      match list_find (λ f, f.1 = fieldname) fields with
      | None => inl "Unexpected field"
      | Some (_, (_, maxCount)) =>
          let stored := default [] (reqFiles !! fieldname) in
          if decide (length stored < maxCount)
          then appendFiles fields rest (<[fieldname := stored ++ [file]]> reqFiles)
          else inl "Unexpected field"
      end
  end.

Definition upload_fields (fields : list (string * nat)) (req : Request)
    : string + option (gmap string (list File)) :=
  match req with
  | None => inr None
  | Some parts =>
      match appendFiles fields parts ∅ with
      | inl err => inl err
      | inr reqFiles => inr (Some reqFiles)
      end
  end.

Definition mergeFields : list (string * nat) := [("videos", 20); ("music", 1)].

(** The checks of the handler before the pipeline is called: either the
    response sent, or the job handed to [mergeVideosWithMusic]. *)
Definition accept (reqFiles : option (gmap string (list File)))
    : Response + (list File * File) :=
  match reqFiles with
  | None => inl (Json 400 "No files uploaded" None)
  | Some reqFiles =>
      let videoFiles := reqFiles !! "videos" in
      let musicFile := reqFiles !! "music" ≫= head in
      match videoFiles with
      | None | Some [] => inl (Json 400 "No video files uploaded" None)
      | Some videoFiles =>
          match musicFile with
          | None => inl (Json 400 "No music file uploaded" None)
          | Some musicFile => inr (videoFiles, musicFile)
          end
      end
  end.

Section Route.

Variable cwd : string.
Variable ffprobe : World → string → Exit Metadata.
Variable ffmpeg : World → Command → Exit unit.

(** The handler of [POST /merge].  The callback of [res.download]
    removes the uploads whether or not the transfer succeeded; the
    transfer itself is not modelled. *)
Definition handler (reqFiles : option (gmap string (list File)))
    : Async Response :=
  try_catch
    (match accept reqFiles with
     | inl response => resolve response
     | inr (videoFiles, musicFile) =>
         outputPath ← Media.mergeVideosWithMusic cwd ffprobe ffmpeg
                        videoFiles musicFile;
         Media.unlinkAll (map path videoFiles);;
         Media.unlinkAll [path musicFile];;
         resolve (Download outputPath "merged.mp4")
     end)
    (λ error, resolve (Json 500 "Merge failed" (Some error))).

(** The route: multer first, then the handler; an error of multer goes
    to the error handling middleware. *)
Definition mergeRoute (req : Request) : Async Response :=
  match upload_fields mergeFields req with
  | inl err => resolve (Json 500 "Internal server error" (Some err))
  | inr reqFiles => handler reqFiles
  end.

End Route.
End Server.

(** ** Vocabulary of the statements *)

(** [s] is the first stream of kind [kind] in the probe result. *)
Definition first_stream (kind : string) (md : Metadata) (s : Stream) : Prop :=
  ∃ before after,
    streams md = before ++ s :: after ∧
    Forall (λ x, codec_type x ≠ kind) before ∧
    codec_type s = kind.

(** The world in which the next input is probed once [passed] went
    through validation. *)
Definition after_probes (passed : list File) (w : World) : World :=
  {| files := files w;
     trace := trace w ++ map (λ f, Probe (path f)) passed |}.

(** The normalization commands of the clips [videoFiles], which sit in
    the submitted array from index [i] on. *)
Definition encodes (cwd : string) (i : nat) (videoFiles : list File)
    : list Command :=
  imap (λ k video,
          Media.processCommand (path video) (Media.processedPath cwd (i + k)))
       videoFiles.

(** The world after the commands [cmds] ran one after the other and all
    finished. *)
Definition after_runs (cmds : list Command) (w : World) : World :=
  foldl (λ w cmd, store (output cmd) (Product cmd) (log (Run cmd) w)) w cmds.

(** The world after [fs.unlink] was called on each of [l]. *)
Definition after_unlinks (l : list string) (w : World) : World :=
  foldl (λ w file, remove file (log (Unlink file) w)) w l.

(** The manifest for [n] clips: one line per intermediate, by position. *)
Definition manifest (cwd : string) (n : nat) : string :=
  join newline
    (map (λ i, "file '" +:+ Media.processedPath cwd i +:+ "'") (seq 0 n)).

(** The paths a run wrote: outputs of the engine and files written. *)
Definition written (t : list Event) : list string :=
  omap (λ e, match e with
             | Run cmd => Some (output cmd)
             | WriteFile file _ => Some file
             | _ => None
             end) t.

(** The events a run added to the log. *)
Definition events_since (w w' : World) : list Event :=
  drop (length (trace w)) (trace w').

(** Nothing was deleted between [w] and [w']: every file is still there
    and no [fs.unlink] was issued. *)
Definition quiet (w w' : World) : Prop :=
  dom (files w) ⊆ dom (files w') ∧
  ∃ t, trace w' = trace w ++ t ∧ Forall (λ e, ∀ file, e ≠ Unlink file) t.

(** The event is an invocation of the engine that never exits when made
    in the world [w0]. *)
Definition never_exits (ffprobe : World → string → Exit Metadata)
    (ffmpeg : World → Command → Exit unit) (w0 : World) (ev : Event) : Prop :=
  match ev with
  | Probe file => ffprobe w0 file = NeverExits
  | Run cmd => ffmpeg w0 cmd = NeverExits
  | _ => False
  end.

(** The last thing that happened in [w'] is such an invocation. *)
Definition stalled (ffprobe : World → string → Exit Metadata)
    (ffmpeg : World → Command → Exit unit) (w' : World) : Prop :=
  ∃ w0 ev, w' = log ev w0 ∧ never_exits ffprobe ffmpeg w0 ev.

(** What holds of every run of [m]: it deletes nothing, it is left
    pending only by an invocation that never exits, and it is not rejected
    behind such an invocation. *)
Definition tame (ffprobe : World → string → Exit Metadata)
    (ffmpeg : World → Command → Exit unit) {A} (m : Async A) : Prop :=
  ∀ w o w', m w = (o, w') →
    quiet w w' ∧
    match o with
    | Resolved _ => True
    | Rejected _ => ¬ stalled ffprobe ffmpeg w'
    | Pending => stalled ffprobe ffmpeg w'
    end.

(** The same, asked only of the runs that do not resolve. *)
Definition tame_failing (ffprobe : World → string → Exit Metadata)
    (ffmpeg : World → Command → Exit unit) {A} (m : Async A) : Prop :=
  ∀ w o w', m w = (o, w') →
    match o with
    | Resolved _ => True
    | Rejected _ => quiet w w' ∧ ¬ stalled ffprobe ffmpeg w'
    | Pending => quiet w w' ∧ stalled ffprobe ffmpeg w'
    end.

(** The files a multipart body carries under one field, in arrival
    order. *)
Definition field_files (name : string) (parts : list (string * File))
    : list File :=
  (filter (λ p, p.1 = name) parts).*2.

(** Sample inputs, worlds and engines. *)
Module Sample.

Definition stream (kind codec : string) (w h : Z) : Stream :=
  {| codec_type := kind; codec_name := codec;
     width := Some w; height := Some h |}.
Definition sound (codec : string) : Stream :=
  {| codec_type := "audio"; codec_name := codec;
     width := None; height := None |}.

Definition clipA : File :=
  {| originalname := "beach.mp4"; path := "/srv/uploads/1-11.mp4" |}.
Definition clipB : File :=
  {| originalname := "city.mp4"; path := "/srv/uploads/2-22.mp4" |}.
Definition song : File :=
  {| originalname := "tune.mp3"; path := "/srv/uploads/3-33.mp3" |}.

Definition hd1080 : Metadata :=
  {| streams := [sound "pcm_s16le"; stream "video" "h264" 1920 1080;
                 stream "video" "vp6" 7680 4320] |}.
Definition uhd : Metadata :=
  {| streams := [stream "video" "hevc" 3840 2160] |}.
Definition vp6_4k : Metadata :=
  {| streams := [stream "video" "vp6" 4096 2160] |}.
Definition mp3 : Metadata :=
  {| streams := [stream "video" "mjpeg" 9000 9000; sound "mp3"; sound "flac"] |}.

Definition disk : World :=
  {| files := {[ path clipA := Blob "beach"; path clipB := Blob "city";
                 path song := Blob "tune" ]};
     trace := [] |}.

(** An engine that reports [video] for every file but the song, and
    whose ffmpeg always finishes. *)
Definition probe_as (video : Metadata) : World → string → Exit Metadata :=
  λ _ p, if String.eqb p (path song) then Exited0 mp3 else Exited0 video.
Definition ffmpeg_ok : World → Command → Exit unit := λ _ _, Exited0 tt.

(** A body with two clips and the song, and one with 21 clips. *)
Definition upload : Server.Request :=
  Some [("videos", clipA); ("videos", clipB); ("music", song)].
Definition upload21 : Server.Request :=
  Some (replicate 21 ("videos", clipA) ++ [("music", song)]).

(** ffprobe crashes, hangs. *)
Definition probe_crash : World → string → Exit Metadata :=
  λ _ _, ExitedError "ffprobe exited with code 1".
Definition probe_hang : World → string → Exit Metadata := λ _ _, NeverExits.

(** ffmpeg fails on the command that writes [out] and finishes on the
    others. *)
Definition ffmpeg_fail_on (out : string) : World → Command → Exit unit :=
  λ _ cmd, if String.eqb (output cmd) out
           then ExitedError "ffmpeg exited with code 1"
           else Exited0 tt.

End Sample.

(** ** Vocabulary of the further statements *)

(** Everything a merge of [videoFiles] with [musicFile] does when no step
    fails, in the order it does it. *)
Definition script (cwd : string) (videoFiles : list File) (musicFile : File)
    : list Event :=
  map (λ f, Probe (path f)) (videoFiles ++ [musicFile])
  ++ map Run (encodes cwd 0 videoFiles)
  ++ [WriteFile (Media.listPath cwd) (manifest cwd (length videoFiles));
      Run (Media.concatCommand cwd);
      Run (Media.muxCommand cwd musicFile)]
  ++ map Unlink (map (Media.processedPath cwd) (seq 0 (length videoFiles))
                 ++ [Media.listPath cwd; Media.concatenatedPath cwd]).

(** Every run of [m] logs an initial part of [s], and all of [s] when it
    resolves. *)
Definition plays {A} (m : Async A) (s : list Event) : Prop :=
  ∀ w o w', m w = (o, w') →
    ∃ t, trace w' = trace w ++ t ∧ t `prefix_of` s ∧
         ∀ a, o = Resolved a → t = s.

(** The paths a merge of [n] clips works on. *)
Definition artifacts (cwd : string) (n : nat) : list string :=
  map (Media.processedPath cwd) (seq 0 n)
  ++ [Media.listPath cwd; Media.concatenatedPath cwd; Media.outputPath cwd].

(** No run of [m] creates, replaces or removes a file outside [paths]. *)
Definition keeps_outside (paths : list string) {A} (m : Async A) : Prop :=
  ∀ w o w' file, m w = (o, w') → file ∉ paths →
    files w' !! file = files w !! file.


(** ** index.js, the storage of the uploads *)

Module Storage.
Section Disk.

(** [process.cwd()] *)
Variable cwd : string.

(** [path.extname] of Node. *)
Variable extname : string → string.

(** [destination]: every upload goes to the [uploads] directory. *)
Definition destination : string := path_join cwd "uploads".

(** [filename]: [now] is [Date.now()] and [random] is
    [Math.round(Math.random() * 1e9)], both written in decimal. *)
Definition filename (now random : N) (original : string) : string :=
  (pretty now +:+ "-" +:+ pretty random) +:+ extname original.

(** The file object multer makes of an upload: it keeps the name the
    client sent and stores the file at [path.join(destination, filename)]. *)
Definition stored (now random : N) (original : string) : File :=
  {| originalname := original;
     path := path_join destination (filename now random original) |}.

End Disk.
End Storage.

(** ** App.tsx, the selection of the files and the request *)

Module App.

(** A [File] of the browser: its name and its MIME type. *)
Record BrowserFile := { name : string; type : string }.

Section Component.

(** JavaScript numbers with their zero and their addition. *)
Variable number : Type.
Variable zero : number.
Variable add : number → number → number.

(** What the browser makes of a file: the duration, known once the
    metadata are loaded, and the thumbnail, drawn once the first frame is
    loaded ([None] when the event never fires, so that the promise never
    settles), and the URL [URL.createObjectURL] hands out for it. *)
Variable getVideoDuration : BrowserFile → option number.
Variable generateThumbnail : BrowserFile → option string.
Variable createObjectURL : BrowserFile → string.

Record VideoFile := {
  file : BrowserFile;
  preview : string;
  duration : number;
  thumbnail : string
}.

Record MusicFile := {
  music_file : BrowserFile;
  music_preview : string;
  music_duration : number
}.

(** The state of the component. *)
Record State := {
  videos : list VideoFile;
  music : option MusicFile;
  isLoading : bool;
  error : string;
  progress : nat;
  totalDuration : number
}.

Definition setError (message : string) (st : State) : State :=
  {| videos := videos st; music := music st; isLoading := isLoading st;
     error := message; progress := progress st;
     totalDuration := totalDuration st |}.

(** [setVideos(prev => [...prev, ...newVideos])] followed by
    [setTotalDuration(prev => prev + newVideos.reduce(...))] *)
Definition addVideos (newVideos : list VideoFile) (st : State) : State :=
  {| videos := videos st ++ newVideos; music := music st;
     isLoading := isLoading st; error := error st; progress := progress st;
     totalDuration :=
       add (totalDuration st)
           (foldl (λ sum v, add sum (duration v)) zero newVideos) |}.

Definition setMusic (m : MusicFile) (st : State) : State :=
  {| videos := videos st; music := Some m; isLoading := isLoading st;
     error := error st; progress := progress st;
     totalDuration := totalDuration st |}.

Definition isVideo (f : BrowserFile) : bool := String.prefix "video/" (type f).
Definition isAudio (f : BrowserFile) : bool := String.prefix "audio/" (type f).

(** The entry made for one dropped video, once its duration and its
    thumbnail are there. *)
Definition describe (f : BrowserFile) : option VideoFile :=
  duration ← getVideoDuration f;
  thumbnail ← generateThumbnail f;
  Some {| file := f; preview := createObjectURL f;
          duration := duration; thumbnail := thumbnail |}.

(** [onDrop]: the state once every update the callback gets to has been
    made.  The callback waits for all the dropped videos ([Promise.all]),
    then for the duration of the first audio file; where a promise never
    settles it goes no further. *)
Definition onDrop (acceptedFiles : list BrowserFile) (st : State) : State :=
  let st := setError "" st in
  let videoFiles := List.filter isVideo acceptedFiles in
  let audioFiles := List.filter isAudio acceptedFiles in
  let afterVideos :=
    if 0 <? length videoFiles
    then newVideos ← mapM describe videoFiles; Some (addVideos newVideos st)
    else Some st in
  match afterVideos with
  | None => st
  | Some st1 =>
      match audioFiles with
      | [] => st1
      | audioFile :: _ =>
          match getVideoDuration audioFile with
          | None => st1
          | Some duration =>
              setMusic {| music_file := audioFile;
                          music_preview := createObjectURL audioFile;
                          music_duration := duration |} st1
          end
      end
  end.

(** The start of [handleSubmit]: without a video or without music an error
    is shown and nothing is sent; otherwise the form is filled, the videos
    first, and posted. *)
Definition handleSubmit (st : State)
    : State * option (list (string * BrowserFile)) :=
  match videos st, music st with
  | [], _ | _, None =>
      (setError "Please select at least one video and one music file" st, None)
  | vs, Some m =>
      ({| videos := videos st; music := music st; isLoading := true;
          error := ""; progress := 0; totalDuration := totalDuration st |},
       Some (map (λ v, ("videos", file v)) vs ++ [("music", music_file m)]))
  end.

End Component.
End App.

(** No character of the string is a dash. *)
Fixpoint dashless (s : string) : Prop :=
  match s with
  | EmptyString => True
  | String c rest => String c "" ≠ "-" ∧ dashless rest
  end.

(** Further sample inputs. *)
Module More.



(** ffmpeg fails on the second clip. *)
Definition ffmpeg_fail_second : World → Command → Exit unit :=
  Sample.ffmpeg_fail_on "/srv/temp/processed_1.mp4".


(** A body with a clip and no music. *)
Definition upload_no_music : Server.Request := Some [("videos", Sample.clipA)].

(** Files dropped on the page, and a browser in which every file loads but
    the one called [broken.mp4]. *)
Definition dropped : list App.BrowserFile :=
  [ {| App.name := "beach.mp4"; App.type := "video/mp4" |};
    {| App.name := "notes.txt"; App.type := "text/plain" |};
    {| App.name := "tune.mp3"; App.type := "audio/mpeg" |};
    {| App.name := "city.webm"; App.type := "video/webm" |};
    {| App.name := "other.ogg"; App.type := "audio/ogg" |} ].
Definition broken : App.BrowserFile :=
  {| App.name := "broken.mp4"; App.type := "video/mp4" |}.
Definition duration_of (f : App.BrowserFile) : option nat :=
  if String.eqb (App.name f) "broken.mp4" then None else Some 3.
Definition thumbnail_of (f : App.BrowserFile) : option string :=
  Some ("data:image/jpeg;" +:+ App.name f).
Definition url_of (f : App.BrowserFile) : string := "blob:" +:+ App.name f.
Definition fresh : App.State nat :=
  {| App.videos := []; App.music := None; App.isLoading := false;
     App.error := "old"; App.progress := 0; App.totalDuration := 0 |}.

End More.

(** * Properties *)

(** ** Promises and strings *)

Ltac async_unfold :=
  unfold mbind, async_bind, await, try_catch, resolve, throw in *.

Lemma await_eq {A B} (m : Async A) (k : A → Async B) w :
  (m ≫= k) w =
  match m w with
  | (Resolved a, w') => k a w'
  | (Rejected e, w') => (Rejected e, w')
  | (Pending, w') => (Pending, w')
  end.
Proof. reflexivity. Qed.

Lemma await_resolved {A B} (m : Async A) (k : A → Async B) w a w1 :
  m w = (Resolved a, w1) → (m ≫= k) w = k a w1.
Proof. intros H. rewrite await_eq, H. reflexivity. Qed.

Lemma await_rejected {A B} (m : Async A) (k : A → Async B) w e w1 :
  m w = (Rejected e, w1) → (m ≫= k) w = (Rejected e, w1).
Proof. intros H. rewrite await_eq, H. reflexivity. Qed.

Lemma await_pending {A B} (m : Async A) (k : A → Async B) w w1 :
  m w = (Pending, w1) → (m ≫= k) w = (Pending, w1).
Proof. intros H. rewrite await_eq, H. reflexivity. Qed.








Lemma js_gt_Some (n b : Z) : js_gt (Some n) b = true ↔ (b < n)%Z.
Proof. simpl. apply Z.ltb_lt. Qed.

Lemma find_first_stream kind md s :
  first_stream kind md s →
  find (λ x, String.eqb (codec_type x) kind) (streams md) = Some s.
Proof.
  intros (before & after & -> & Hb & Hs).
  induction Hb as [|x before Hx _ IH]; simpl.
  - rewrite Hs, String.eqb_refl. reflexivity.
  - destruct (String.eqb_spec (codec_type x) kind); [contradiction | exact IH].
Qed.

(** ** Validation of one input *)

Section Validation.

Variable cwd : string.
Variable ffprobe : World → string → Exit Metadata.
Variable ffmpeg : World → Command → Exit unit.

Local Abbreviation validateVideo := (Media.validateVideo ffprobe).
Local Abbreviation validateMusic := (Media.validateMusic ffprobe).
Local Abbreviation validateVideos := (Media.validateVideos ffprobe).

(** What the checks of [validateVideos] make of a probe result. *)
Lemma validateVideo_probed file w md :
  ffprobe w (path file) = Exited0 md →
  validateVideo file w =
  (match find (λ s, String.eqb (codec_type s) "video") (streams md) with
   | None => Rejected (Media.noVideoStream file)
   | Some videoStream =>
       if negb (includes Media.supportedVideoCodecs (codec_name videoStream))
       then Rejected (Media.unsupportedVideoCodec file)
       else if js_gt (width videoStream) 3840 || js_gt (height videoStream) 2160
       then Rejected (Media.resolutionTooHigh file)
       else Resolved tt
   end, log (Probe (path file)) w).
Proof.
  intros H. unfold Media.validateVideo, Media.getVideoMetadata.
  async_unfold. rewrite H.
  destruct (find _ _) as [vs|]; [|reflexivity].
  destruct (negb _); [reflexivity|].
  destruct (_ || _); reflexivity.
Qed.

Lemma validateMusic_probed file w md :
  ffprobe w (path file) = Exited0 md →
  validateMusic file w =
  (match find (λ s, String.eqb (codec_type s) "audio") (streams md) with
   | None => Rejected (Media.noAudioStream file)
   | Some audioStream =>
       if negb (includes Media.supportedAudioCodecs (codec_name audioStream))
       then Rejected (Media.unsupportedAudioCodec file)
       else Resolved tt
   end, log (Probe (path file)) w).
Proof.
  intros H. unfold Media.validateMusic, Media.getVideoMetadata.
  async_unfold. rewrite H.
  destruct (find _ _) as [vs|]; [|reflexivity].
  destruct (negb _); reflexivity.
Qed.

Lemma validateVideo_failed file w :
  validateVideo file w =
  match ffprobe w (path file) with
  | Exited0 md => validateVideo file w
  | ExitedError d => (Rejected d, log (Probe (path file)) w)
  | NeverExits => (Pending, log (Probe (path file)) w)
  end.
Proof.
  destruct (ffprobe w (path file)) eqn:H; [reflexivity| |];
    unfold Media.validateVideo, Media.getVideoMetadata; async_unfold;
    rewrite H; reflexivity.
Qed.

Lemma validateMusic_failed file w :
  validateMusic file w =
  match ffprobe w (path file) with
  | Exited0 md => validateMusic file w
  | ExitedError d => (Rejected d, log (Probe (path file)) w)
  | NeverExits => (Pending, log (Probe (path file)) w)
  end.
Proof.
  destruct (ffprobe w (path file)) eqn:H; [reflexivity| |];
    unfold Media.validateMusic, Media.getVideoMetadata; async_unfold;
    rewrite H; reflexivity.
Qed.


(** C5, as amended: for a video input whose first video stream has a
    whitelisted codec, validation fails with the resolution error if and
    only if the width of that stream exceeds 3840 or its height exceeds
    2160; at exactly 3840x2160 the input is accepted. *)
Theorem resolution_ceiling file w md s :
  ffprobe w (path file) = Exited0 md →
  first_stream "video" md s →
  includes Media.supportedVideoCodecs (codec_name s) = true →
  ((validateVideo file w).1 = Rejected (Media.resolutionTooHigh file)
     ↔ js_gt (width s) 3840 = true ∨ js_gt (height s) 2160 = true) ∧
  (width s = Some 3840%Z → height s = Some 2160%Z →
     (validateVideo file w).1 = Resolved tt).
Proof.
  intros Hp Hs Hc.
  rewrite (validateVideo_probed _ _ _ Hp), (find_first_stream _ _ _ Hs), Hc.
  simpl. split.
  - destruct (js_gt (width s) 3840), (js_gt (height s) 2160); simpl;
      split; intros H; try done; auto; destruct H; done.
  - intros -> ->. reflexivity.
Qed.

End Validation.

Lemma first_stream_here kind before s after :
  forallb (λ x, negb (String.eqb (codec_type x) kind)) before = true →
  codec_type s = kind →
  first_stream kind {| streams := before ++ s :: after |} s.
Proof.
  intros Hb Hs. exists before, after. split; [reflexivity|]. split; [|exact Hs].
  apply Forall_forall. intros x Hx.
  rewrite forallb_forall in Hb. specialize (Hb x (proj1 (list_elem_of_In _ _) Hx)).
  destruct (String.eqb_spec (codec_type x) kind); [discriminate | assumption].
Qed.


(** C5, as stated, fails on a 4096x2160 clip in vp6: its width exceeds the
    ceiling, but the codec check comes first and the clip is turned down
    for its codec, not for its resolution. *)
Lemma resolution_ceiling_counterexample :
  let s := Sample.stream "video" "vp6" 4096 2160 in
  let verdict := (Media.validateVideo (Sample.probe_as Sample.vp6_4k)
                    Sample.clipA Sample.disk).1 in
  first_stream "video" Sample.vp6_4k s ∧
  verdict = Rejected (Media.unsupportedVideoCodec Sample.clipA) ∧
  ¬ (verdict = Rejected (Media.resolutionTooHigh Sample.clipA)
     ↔ js_gt (width s) 3840 = true ∨ js_gt (height s) 2160 = true).
Proof.
  split.
  { exact (first_stream_here "video" [] (Sample.stream "video" "vp6" 4096 2160)
             [] eq_refl eq_refl). }
  split; [reflexivity|].
  intros [_ H]. specialize (H (or_introl eq_refl)). discriminate H.
Qed.

Lemma resolution_ceiling_witness :
  first_stream "video" Sample.uhd (Sample.stream "video" "hevc" 3840 2160) ∧
  (Media.validateVideo (Sample.probe_as Sample.uhd) Sample.clipA Sample.disk).1
    = Resolved tt.
Proof.
  assert (Hs : first_stream "video" Sample.uhd
                 (Sample.stream "video" "hevc" 3840 2160)).
  { exact (first_stream_here "video" [] (Sample.stream "video" "hevc" 3840 2160)
             [] eq_refl eq_refl). }
  split; [exact Hs|].
  exact (proj2 (resolution_ceiling (Sample.probe_as Sample.uhd) Sample.clipA
                  Sample.disk Sample.uhd _ eq_refl Hs eq_refl)
           eq_refl eq_refl).
Defined.

(** ** The validation stage *)

Section FailFast.

Variable cwd : string.
Variable ffprobe : World → string → Exit Metadata.
Variable ffmpeg : World → Command → Exit unit.

Local Abbreviation validateVideo := (Media.validateVideo ffprobe).
Local Abbreviation validateMusic := (Media.validateMusic ffprobe).
Local Abbreviation validateVideos := (Media.validateVideos ffprobe).

Lemma after_probes_nil w : after_probes [] w = w.
Proof. destruct w. unfold after_probes. simpl. by rewrite app_nil_r. Qed.

Lemma after_probes_cons f passed w :
  after_probes (f :: passed) w = after_probes passed (log (Probe (path f)) w).
Proof. unfold after_probes, log. simpl. by rewrite <- app_assoc. Qed.

Lemma after_probes_snoc f passed w :
  after_probes (passed ++ [f]) w = log (Probe (path f)) (after_probes passed w).
Proof. unfold after_probes, log. simpl. by rewrite map_app, app_assoc. Qed.



Lemma validateVideo_world file w o w' :
  validateVideo file w = (o, w') → w' = log (Probe (path file)) w.
Proof.
  rewrite validateVideo_failed.
  destruct (ffprobe w (path file)) as [md|d|] eqn:Hp;
    [|congruence|congruence].
  rewrite (validateVideo_probed _ _ _ _ Hp). congruence.
Qed.

Lemma validateMusic_world file w o w' :
  validateMusic file w = (o, w') → w' = log (Probe (path file)) w.
Proof.
  rewrite validateMusic_failed.
  destruct (ffprobe w (path file)) as [md|d|] eqn:Hp;
    [|congruence|congruence].
  rewrite (validateMusic_probed _ _ _ _ Hp). congruence.
Qed.

(** When the loop gets through the whole array every file was probed
    once, in array order. *)
Lemma validateVideos_resolved videoFiles w w' :
  validateVideos videoFiles w = (Resolved tt, w') →
  w' = after_probes videoFiles w.
Proof.
  revert w. induction videoFiles as [|file rest IH]; intros w.
  - intros [= <-]. by rewrite after_probes_nil.
  - simpl. rewrite await_eq.
    destruct (validateVideo file w) as [[[]|e|] w1] eqn:Hf; try discriminate.
    apply validateVideo_world in Hf as ->.
    intros H. rewrite after_probes_cons. by apply IH.
Qed.


(** [mergeVideosWithMusic] without its first, empty step. *)
Lemma merge_unfold videoFiles musicFile w :
  Media.mergeVideosWithMusic cwd ffprobe ffmpeg videoFiles musicFile w =
  match
    (validateVideos videoFiles;;
     validateMusic musicFile;;
     processedVideos ← Media.processVideos cwd ffmpeg videoFiles 0 [];
     Media.writeFile (Media.listPath cwd) (Media.fileList processedVideos);;
     Media.run ffmpeg (Media.concatCommand cwd);;
     Media.run ffmpeg (Media.muxCommand cwd musicFile);;
     Media.unlinkAll
       (processedVideos ++ [Media.listPath cwd; Media.concatenatedPath cwd]);;
     resolve (Media.outputPath cwd)) w
  with
  | (Rejected error, w') => (Rejected ("Video merge failed: " +:+ error), w')
  | r => r
  end.
Proof. reflexivity. Qed.


End FailFast.

(** ** Paths *)

Lemma append_assoc (a b c : string) : (a +:+ b) +:+ c = a +:+ b +:+ c.
Proof.
  induction a as [|x a IH]; [reflexivity|].
  exact (f_equal (String x) IH).
Qed.

Lemma length_append (a b : string) :
  String.length (a +:+ b) = String.length a + String.length b.
Proof.
  induction a as [|x a IH]; [reflexivity|].
  exact (f_equal S IH).
Qed.

Lemma append_cancel_l (a b c : string) : a +:+ b = a +:+ c → b = c.
Proof.
  induction a as [|x a IH]; intros H; [exact H|].
  apply IH. by injection H.
Qed.

Lemma append_cancel_r (s a b : string) : a +:+ s = b +:+ s → a = b.
Proof.
  revert b. induction a as [|x a IH]; intros [|y b] H.
  - done.
  - apply (f_equal String.length) in H.
    change (String.length s = S (String.length (b +:+ s))) in H.
    rewrite length_append in H. lia.
  - apply (f_equal String.length) in H.
    change (S (String.length (a +:+ s)) = String.length s) in H.
    rewrite length_append in H. lia.
  - injection H as -> H. by rewrite (IH _ H).
Qed.

Section Paths.

Variable cwd : string.

Lemma processedPath_eq i :
  Media.processedPath cwd i
  = cwd +:+ "/temp/processed_" +:+ pretty i +:+ ".mp4".
Proof.
  unfold Media.processedPath, Media.TEMP_DIR, path_join.
  rewrite append_assoc. reflexivity.
Qed.

Lemma listPath_eq : Media.listPath cwd = cwd +:+ "/temp/filelist.txt".
Proof.
  unfold Media.listPath, Media.TEMP_DIR, path_join.
  rewrite append_assoc. reflexivity.
Qed.

Lemma concatenatedPath_eq :
  Media.concatenatedPath cwd = cwd +:+ "/temp/concatenated.mp4".
Proof.
  unfold Media.concatenatedPath, Media.TEMP_DIR, path_join.
  rewrite append_assoc. reflexivity.
Qed.

Lemma outputPath_eq : Media.outputPath cwd = cwd +:+ "/outputs/merged.mp4".
Proof.
  unfold Media.outputPath, Media.OUTPUT_DIR, path_join.
  rewrite append_assoc. reflexivity.
Qed.

(** Distinct positions get distinct intermediates. *)
Lemma processedPath_inj i j :
  Media.processedPath cwd i = Media.processedPath cwd j → i = j.
Proof.
  rewrite !processedPath_eq. intros H%append_cancel_l.
  change (("/temp/processed_" +:+ pretty i) +:+ ".mp4"
          = ("/temp/processed_" +:+ pretty j) +:+ ".mp4") in H.
  apply append_cancel_r in H.
  apply (append_cancel_l "/temp/processed_") in H.
  by apply (inj pretty).
Qed.

(** The final artifact is none of the intermediates. *)
Lemma outputPath_not_temp file :
  file ∈ [Media.listPath cwd; Media.concatenatedPath cwd]
  ∨ (∃ i, file = Media.processedPath cwd i) →
  file ≠ Media.outputPath cwd.
Proof.
  rewrite outputPath_eq.
  intros [H|[i ->]].
  - apply list_elem_of_In in H. destruct H as [<-|[<-|[]]].
    + rewrite listPath_eq. intros H%append_cancel_l. discriminate H.
    + rewrite concatenatedPath_eq. intros H%append_cancel_l. discriminate H.
  - rewrite processedPath_eq. intros H%append_cancel_l. discriminate H.
Qed.

End Paths.

(** ** The stages after validation *)

Lemma await_resolved_inv {A B} (m : Async A) (k : A → Async B) w b w' :
  (m ≫= k) w = (Resolved b, w') →
  ∃ a w1, m w = (Resolved a, w1) ∧ k a w1 = (Resolved b, w').
Proof.
  rewrite await_eq. destruct (m w) as [[a|e|] w1]; try discriminate.
  intros H. by exists a, w1.
Qed.

Lemma trace_after_runs cmds w :
  trace (after_runs cmds w) = trace w ++ map Run cmds.
Proof.
  revert w. induction cmds as [|c cmds IH]; intros w; simpl.
  - by rewrite app_nil_r.
  - unfold after_runs in *. simpl. rewrite IH. simpl. by rewrite <- app_assoc.
Qed.

Lemma dom_after_runs cmds w :
  dom (files (after_runs cmds w))
  = dom (files w) ∪ list_to_set (map output cmds).
Proof.
  revert w. induction cmds as [|c cmds IH]; intros w; simpl.
  - set_solver.
  - unfold after_runs in *. simpl. rewrite IH. simpl.
    rewrite dom_insert_L. set_solver.
Qed.

Lemma trace_after_unlinks l w :
  trace (after_unlinks l w) = trace w ++ map Unlink l.
Proof.
  revert w. induction l as [|f l IH]; intros w; simpl.
  - by rewrite app_nil_r.
  - unfold after_unlinks in *. simpl. rewrite IH. simpl. by rewrite <- app_assoc.
Qed.

Lemma after_unlinks_cons f l w :
  after_unlinks (f :: l) w = after_unlinks l (remove f (log (Unlink f) w)).
Proof. reflexivity. Qed.

Lemma files_after_unlinks l w file :
  files (after_unlinks l w) !! file
  = if decide (file ∈ l) then None else files w !! file.
Proof.
  revert w. induction l as [|f l IH]; intros w.
  - case_decide as H; [by apply elem_of_nil in H | done].
  - rewrite after_unlinks_cons, IH.
    change (files (remove f (log (Unlink f) w))) with (delete f (files w)).
    repeat case_decide; try done.
    + set_solver.
    + assert (file = f) as -> by set_solver. apply lookup_delete_eq.
    + apply lookup_delete_ne. set_solver.
Qed.

Lemma encodes_cons cwd i video rest :
  encodes cwd i (video :: rest)
  = Media.processCommand (path video) (Media.processedPath cwd i)
    :: encodes cwd (S i) rest.
Proof.
  unfold encodes. simpl. rewrite Nat.add_0_r. f_equal.
  apply imap_ext. intros k v _. simpl. by rewrite Nat.add_succ_r.
Qed.

Lemma output_encodes cwd i videoFiles :
  map output (encodes cwd i videoFiles)
  = map (Media.processedPath cwd) (seq i (length videoFiles)).
Proof.
  revert i. induction videoFiles as [|v rest IH]; intros i; [done|].
  rewrite encodes_cons. simpl. by rewrite IH.
Qed.

Section Stages.

Variable cwd : string.
Variable ffprobe : World → string → Exit Metadata.
Variable ffmpeg : World → Command → Exit unit.

Local Abbreviation run := (Media.run ffmpeg).
Local Abbreviation processVideo := (Media.processVideo ffmpeg).
Local Abbreviation processVideos := (Media.processVideos cwd ffmpeg).
Local Abbreviation processedPath := (Media.processedPath cwd).
Local Abbreviation mergeVideosWithMusic :=
  (Media.mergeVideosWithMusic cwd ffprobe ffmpeg).

Lemma run_eq cmd w :
  run cmd w =
  match ffmpeg w cmd with
  | Exited0 _ => (Resolved tt, store (output cmd) (Product cmd) (log (Run cmd) w))
  | ExitedError err => (Rejected err, log (Run cmd) w)
  | NeverExits => (Pending, log (Run cmd) w)
  end.
Proof. reflexivity. Qed.

Lemma run_resolved cmd w u w' :
  run cmd w = (Resolved u, w') →
  w' = store (output cmd) (Product cmd) (log (Run cmd) w).
Proof. rewrite run_eq. destruct (ffmpeg w cmd); congruence. Qed.

(** The loop names its outputs by position and by nothing else. *)
Lemma processVideos_resolved videoFiles i acc w ps w' :
  processVideos videoFiles i acc w = (Resolved ps, w') →
  ps = acc ++ map processedPath (seq i (length videoFiles)) ∧
  w' = after_runs (encodes cwd i videoFiles) w.
Proof.
  revert i acc w. induction videoFiles as [|video rest IH]; intros i acc w.
  - intros [= <- <-]. by rewrite app_nil_r.
  - change (processVideos (video :: rest) i acc)
      with (processVideo (path video) (processedPath i);;
            processVideos rest (S i) (acc ++ [processedPath i])).
    intros (u & w1 & Hrun & Hrest)%await_resolved_inv.
    apply run_resolved in Hrun as ->.
    apply IH in Hrest as [-> ->].
    rewrite <- app_assoc, encodes_cons. done.
Qed.

Lemma unlinkAll_eq l w :
  Media.unlinkAll l w = (Resolved tt, after_unlinks l w).
Proof.
  revert w. induction l as [|file l IH]; intros w; [done|].
  simpl. rewrite await_eq. unfold try_catch, Media.unlink.
  destruct (files w !! file); simpl; apply IH.
Qed.

Lemma fileList_manifest n :
  Media.fileList (map processedPath (seq 0 n)) = manifest cwd n.
Proof. unfold Media.fileList, manifest. by rewrite map_map. Qed.



End Stages.





(** ** Runs that delete nothing, and runs that wait for the engine *)

Lemma quiet_refl w : quiet w w.
Proof. split; [done|]. exists []. by rewrite app_nil_r. Qed.

Lemma quiet_trans w1 w2 w3 : quiet w1 w2 → quiet w2 w3 → quiet w1 w3.
Proof.
  intros [Hd1 (t1 & Ht1 & Hf1)] [Hd2 (t2 & Ht2 & Hf2)].
  split; [by etrans|]. exists (t1 ++ t2).
  split; [by rewrite Ht2, Ht1, app_assoc | by apply Forall_app].
Qed.

Lemma quiet_log ev w :
  (∀ file, ev ≠ Unlink file) → quiet w (log ev w).
Proof. intros H. split; [done|]. exists [ev]. split; [done|]. by constructor. Qed.

Lemma quiet_store file c w : quiet w (store file c w).
Proof.
  split.
  - simpl. rewrite dom_insert. apply union_subseteq_r.
  - exists []. by rewrite app_nil_r.
Qed.

Lemma log_inj ev1 w1 ev2 w2 : log ev1 w1 = log ev2 w2 → ev1 = ev2 ∧ w1 = w2.
Proof.
  destruct w1 as [f1 t1], w2 as [f2 t2]. unfold log. simpl.
  intros [= -> [-> ->]%app_inj_tail]. done.
Qed.

Section Tame.

Variable cwd : string.
Variable ffprobe : World → string → Exit Metadata.
Variable ffmpeg : World → Command → Exit unit.

Local Abbreviation stalled := (stalled ffprobe ffmpeg).
Local Abbreviation tame := (tame ffprobe ffmpeg).
Local Abbreviation tame_failing := (tame_failing ffprobe ffmpeg).

Lemma tame_is_tame_failing {A} (m : Async A) : tame m → tame_failing m.
Proof.
  intros H w o w' Hm. destruct (H w o w' Hm) as [Hq Ho].
  destruct o; done.
Qed.

Lemma tame_await {A B} (m : Async A) (k : A → Async B) :
  tame m → (∀ a, tame (k a)) → tame (m ≫= k).
Proof.
  intros Hm Hk w o w'. rewrite await_eq.
  destruct (m w) as [[a|e|] w1] eqn:E; destruct (Hm _ _ _ E) as [Hq Ho].
  - intros Hka. destruct (Hk a _ _ _ Hka) as [Hq' Ho'].
    split; [by eapply quiet_trans | done].
  - intros [= <- <-]. done.
  - intros [= <- <-]. done.
Qed.

Lemma tame_failing_await {A B} (m : Async A) (k : A → Async B) :
  tame m → (∀ a, tame_failing (k a)) → tame_failing (m ≫= k).
Proof.
  intros Hm Hk w o w'. rewrite await_eq.
  destruct (m w) as [[a|e|] w1] eqn:E; destruct (Hm _ _ _ E) as [Hq Ho].
  - intros Hka. specialize (Hk a _ _ _ Hka).
    destruct o; [done| |]; destruct Hk as [Hq' Ho'];
      (split; [by eapply quiet_trans | done]).
  - intros [= <- <-]. done.
  - intros [= <- <-]. done.
Qed.

Lemma tame_resolve {A} (a : A) : tame (resolve a).
Proof. intros w o w' [= <- <-]. split; [apply quiet_refl | done]. Qed.

Lemma not_stalled_log ev w :
  ¬ never_exits ffprobe ffmpeg w ev → ¬ stalled (log ev w).
Proof.
  intros Hev (w0 & ev0 & [-> ->]%log_inj & Hn). contradiction.
Qed.

Lemma tame_validateVideo file : tame (Media.validateVideo ffprobe file).
Proof.
  intros w o w' H. pose proof (validateVideo_world _ _ _ _ _ H) as ->.
  split; [by apply quiet_log|].
  rewrite validateVideo_failed in H.
  destruct (ffprobe w (path file)) as [md|d|] eqn:Hp.
  - destruct o; [done| |].
    + apply not_stalled_log. simpl. congruence.
    + rewrite (validateVideo_probed _ _ _ _ Hp) in H.
      repeat case_match; discriminate.
  - injection H as <-. apply not_stalled_log. simpl. congruence.
  - injection H as <-. by exists w, (Probe (path file)).
Qed.

Lemma tame_validateMusic file : tame (Media.validateMusic ffprobe file).
Proof.
  intros w o w' H. pose proof (validateMusic_world _ _ _ _ _ H) as ->.
  split; [by apply quiet_log|].
  rewrite validateMusic_failed in H.
  destruct (ffprobe w (path file)) as [md|d|] eqn:Hp.
  - destruct o; [done| |].
    + apply not_stalled_log. simpl. congruence.
    + rewrite (validateMusic_probed _ _ _ _ Hp) in H.
      repeat case_match; discriminate.
  - injection H as <-. apply not_stalled_log. simpl. congruence.
  - injection H as <-. by exists w, (Probe (path file)).
Qed.

Lemma tame_validateVideos videoFiles :
  tame (Media.validateVideos ffprobe videoFiles).
Proof.
  induction videoFiles as [|file rest IH]; [apply tame_resolve|].
  apply tame_await; [apply tame_validateVideo | intros _; exact IH].
Qed.

Lemma tame_run cmd : tame (Media.run ffmpeg cmd).
Proof.
  intros w o w'. rewrite run_eq.
  destruct (ffmpeg w cmd) as [[]|d|] eqn:Hc; intros [= <- <-].
  - split; [|done].
    eapply quiet_trans; [by apply (quiet_log (Run cmd)) | apply quiet_store].
  - split; [by apply quiet_log|]. apply not_stalled_log. simpl. congruence.
  - split; [by apply quiet_log|]. by exists w, (Run cmd).
Qed.

Lemma tame_writeFile file data : tame (Media.writeFile file data).
Proof.
  intros w o w' [= <- <-]. split; [|done].
  eapply quiet_trans; [by apply (quiet_log (WriteFile file data))|].
  apply quiet_store.
Qed.

Lemma tame_processVideos videoFiles i acc :
  tame (Media.processVideos cwd ffmpeg videoFiles i acc).
Proof.
  revert i acc. induction videoFiles as [|video rest IH]; intros i acc.
  - apply tame_resolve.
  - apply tame_await; [apply tame_run | intros _; apply IH].
Qed.

(** The merge up to its return, without the wrapping of the error. *)
Lemma tame_failing_merge videoFiles musicFile :
  tame_failing (Media.mergeVideosWithMusic cwd ffprobe ffmpeg
                  videoFiles musicFile).
Proof.
  intros w o w'. rewrite merge_unfold.
  match goal with |- context [match ?m w with _ => _ end] =>
    assert (Hbody : tame_failing m) end.
  { apply tame_failing_await; [apply tame_validateVideos | intros _].
    apply tame_failing_await; [apply tame_validateMusic | intros _].
    apply tame_failing_await; [apply tame_processVideos | intros ps].
    apply tame_failing_await; [apply tame_writeFile | intros _].
    apply tame_failing_await; [apply tame_run | intros _].
    apply tame_failing_await; [apply tame_run | intros _].
    intros w1 o1 w1'. rewrite await_eq, unlinkAll_eq. by intros [= <- <-]. }
  match goal with |- context [match ?m w with _ => _ end] =>
    destruct (m w) as [[p|e|] w1] eqn:E end;
    intros [= <- <-]; exact (Hbody _ _ _ E).
Qed.

End Tame.

(** ** The whole merge *)

Section Merge.

Variable cwd : string.
Variable ffprobe : World → string → Exit Metadata.
Variable ffmpeg : World → Command → Exit unit.

Local Abbreviation mergeVideosWithMusic :=
  (Media.mergeVideosWithMusic cwd ffprobe ffmpeg).
Local Abbreviation processedPath := (Media.processedPath cwd).

(** The one way a merge succeeds. *)
Lemma merge_resolved videoFiles musicFile w p w' :
  mergeVideosWithMusic videoFiles musicFile w = (Resolved p, w') →
  p = Media.outputPath cwd ∧
  w' = after_unlinks
         (map processedPath (seq 0 (length videoFiles))
          ++ [Media.listPath cwd; Media.concatenatedPath cwd])
         (after_runs [Media.concatCommand cwd; Media.muxCommand cwd musicFile]
            (store (Media.listPath cwd)
               (Text (manifest cwd (length videoFiles)))
               (log (WriteFile (Media.listPath cwd)
                       (manifest cwd (length videoFiles)))
                  (after_runs (encodes cwd 0 videoFiles)
                     (after_probes (videoFiles ++ [musicFile]) w))))).
Proof.
  rewrite merge_unfold.
  match goal with |- context [match ?m w with _ => _ end] =>
    destruct (m w) as [[q|e|] w1] eqn:E end; intros [= <- <-].
  apply await_resolved_inv in E as ([] & wv & Hv & E).
  apply await_resolved_inv in E as ([] & wm & Hm & E).
  apply await_resolved_inv in E as (ps & wn & Hn & E).
  apply await_resolved_inv in E as ([] & ww & Hw & E).
  apply await_resolved_inv in E as ([] & wc & Hc & E).
  apply await_resolved_inv in E as ([] & wx & Hx & E).
  rewrite await_eq, unlinkAll_eq in E. injection E as <- <-.
  apply validateVideos_resolved in Hv as ->.
  apply validateMusic_world in Hm as ->.
  apply processVideos_resolved in Hn as [-> ->].
  injection Hw as <-.
  apply run_resolved in Hc as ->. apply run_resolved in Hx as ->.
  rewrite fileList_manifest, after_probes_snoc. done.
Qed.

(** After a merge that succeeds the intermediates are gone and the final
    artifact is there. *)
Lemma merge_success_cleans videoFiles musicFile w p w' :
  mergeVideosWithMusic videoFiles musicFile w = (Resolved p, w') →
  (∀ i, i < length videoFiles → files w' !! processedPath i = None) ∧
  files w' !! Media.listPath cwd = None ∧
  files w' !! Media.concatenatedPath cwd = None ∧
  files w' !! p = Some (Product (Media.muxCommand cwd musicFile)).
Proof.
  intros [-> ->]%merge_resolved.
  repeat split; [intros i Hi|..]; rewrite files_after_unlinks.
  - rewrite decide_True; [done|]. apply elem_of_app. left.
    apply list_elem_of_fmap. exists i. split; [done|].
    apply elem_of_seq. lia.
  - rewrite decide_True; [done|]. apply elem_of_app. right. set_solver.
  - rewrite decide_True; [done|]. apply elem_of_app. right. set_solver.
  - rewrite decide_False; [apply lookup_insert_eq|].
    intros Hin. apply (outputPath_not_temp cwd (Media.outputPath cwd));
      [|reflexivity].
    apply elem_of_app in Hin as [Hin|Hin]; [right|left; exact Hin].
    apply list_elem_of_fmap in Hin as (i & -> & _). by exists i.
Qed.

(** The failure path has no cleanup: a merge that fails deletes
    nothing.  Every file that was there before is there afterwards,
    whatever intermediates the stages had written included, and no
    [fs.unlink] is issued. *)
Theorem failed_merge_deletes_nothing videoFiles musicFile w e w' :
  mergeVideosWithMusic videoFiles musicFile w = (Rejected e, w') →
  quiet w w'.
Proof.
  intros H. exact (proj1 (tame_failing_merge cwd ffprobe ffmpeg _ _ _ _ _ H)).
Qed.

(** C9, as amended: no invocation of the engine is bounded by a timeout.
    The merge is left pending, for ever, exactly when the invocation it
    made last never exits; no failure is made of it.  An invocation that
    exits with an error does reject its stage, with the diagnostic of
    the engine. *)
Theorem no_invocation_timeout videoFiles musicFile w o w' :
  mergeVideosWithMusic videoFiles musicFile w = (o, w') →
  (stalled ffprobe ffmpeg w' ↔ o = Pending) ∧
  (∀ w0 file d, ffprobe w0 file = ExitedError d →
     Media.getVideoMetadata ffprobe file w0
       = (Rejected d, log (Probe file) w0)) ∧
  (∀ w0 cmd d, ffmpeg w0 cmd = ExitedError d →
     Media.run ffmpeg cmd w0 = (Rejected d, log (Run cmd) w0)).
Proof.
  intros H. split; [|split].
  - pose proof (tame_failing_merge cwd ffprobe ffmpeg _ _ _ _ _ H) as Ht.
    destruct o as [p|e|].
    + split; [|done]. intros (w0 & ev & Hw' & Hev). exfalso.
      apply merge_resolved in H as [_ ->].
      apply (f_equal trace) in Hw'.
      rewrite trace_after_unlinks, map_app in Hw'.
      change (map Unlink [Media.listPath cwd; Media.concatenatedPath cwd])
        with ([Unlink (Media.listPath cwd)]
              ++ [Unlink (Media.concatenatedPath cwd)]) in Hw'.
      rewrite !app_assoc in Hw'.
      apply app_inj_tail in Hw' as [_ <-]. exact Hev.
    + split; [|done]. intros Hs. by destruct Ht as [_ []].
    + split; [done|]. intros _. apply Ht.
  - intros w0 file d Hd. unfold Media.getVideoMetadata. by rewrite Hd.
  - intros w0 cmd d Hd. rewrite run_eq. by rewrite Hd.
Qed.

End Merge.

Lemma no_invocation_timeout_witness :
  let r := Media.mergeVideosWithMusic "/srv" (Sample.probe_as Sample.hd1080)
             (λ _ _, NeverExits) [Sample.clipA] Sample.song Sample.disk in
  r.1 = Pending ∧
  stalled (Sample.probe_as Sample.hd1080) (λ _ _, NeverExits) r.2.
Proof.
  intros r. split; [reflexivity|].
  apply (no_invocation_timeout "/srv" (Sample.probe_as Sample.hd1080)
           (λ _ _, NeverExits) [Sample.clipA] Sample.song Sample.disk
           r.1 r.2 (surjective_pairing r)).
  reflexivity.
Defined.

(** C9, as stated, fails on an ffprobe that never exits: the merge has
    probed the first clip and is pending; it has not failed, as it does
    when ffprobe exits with an error. *)
Lemma invocation_timeout_counterexample :
  let hang := Media.mergeVideosWithMusic "/srv" Sample.probe_hang
                Sample.ffmpeg_ok [Sample.clipA] Sample.song Sample.disk in
  let crash := Media.mergeVideosWithMusic "/srv" Sample.probe_crash
                 Sample.ffmpeg_ok [Sample.clipA] Sample.song Sample.disk in
  hang = (Pending, log (Probe (path Sample.clipA)) Sample.disk) ∧
  crash = (Rejected "Video merge failed: ffprobe exited with code 1",
           log (Probe (path Sample.clipA)) Sample.disk) ∧
  ¬ ∃ e, hang.1 = Rejected e.
Proof.
  split; [reflexivity|]. split; [reflexivity|].
  intros [e H]. discriminate H.
Qed.

(** ** Two jobs *)

Lemma written_app t1 t2 : written (t1 ++ t2) = written t1 ++ written t2.
Proof. apply omap_app. Qed.

Lemma written_probes (l : list File) :
  written (map (λ f, Probe (path f)) l) = [].
Proof. induction l as [|f l IH]; [done | exact IH]. Qed.

Lemma written_unlinks l : written (map Unlink l) = [].
Proof. induction l as [|f l IH]; [done | exact IH]. Qed.

Lemma written_runs cmds : written (map Run cmds) = map output cmds.
Proof.
  induction cmds as [|c cmds IH]; [done|].
  change (output c :: written (map Run cmds) = output c :: map output cmds).
  by rewrite IH.
Qed.

Section Jobs.

Variable cwd : string.
Variable ffprobe : World → string → Exit Metadata.
Variable ffmpeg : World → Command → Exit unit.

Local Abbreviation processedPath := (Media.processedPath cwd).

(** What a merge that succeeds has written, and where. *)
Lemma merge_written videoFiles musicFile w p w' :
  Media.mergeVideosWithMusic cwd ffprobe ffmpeg videoFiles musicFile w
    = (Resolved p, w') →
  p = Media.outputPath cwd ∧
  written (events_since w w')
  = map processedPath (seq 0 (length videoFiles))
    ++ [Media.listPath cwd; Media.concatenatedPath cwd; Media.outputPath cwd].
Proof.
  intros [-> ->]%merge_resolved. split; [done|].
  unfold events_since.
  rewrite trace_after_unlinks, trace_after_runs. simpl.
  rewrite trace_after_runs. simpl.
  rewrite <- !app_assoc, drop_app_length, !written_app.
  rewrite written_probes, written_unlinks, written_runs, output_encodes.
  rewrite app_nil_r. reflexivity.
Qed.

End Jobs.

Section SharedPaths.

Variable cwd : string.
Variables (ffprobe ffprobe' : World → string → Exit Metadata).
Variables (ffmpeg ffmpeg' : World → Command → Exit unit).

(** C8, as amended: the jobs of one server share the working directory
    and every file name.  Of any two merges that succeed, on whatever
    inputs and whatever the engine did, both return the same final
    path, both write the same manifest and the same concatenated file,
    and every path written by the one with no more clips is written by
    the other. *)
Theorem jobs_share_paths videos1 music1 w1 p1 w1' videos2 music2 w2 p2 w2' :
  Media.mergeVideosWithMusic cwd ffprobe ffmpeg videos1 music1 w1
    = (Resolved p1, w1') →
  Media.mergeVideosWithMusic cwd ffprobe' ffmpeg' videos2 music2 w2
    = (Resolved p2, w2') →
  length videos1 ≤ length videos2 →
  p1 = p2 ∧
  written (events_since w1 w1')
  = map (Media.processedPath cwd) (seq 0 (length videos1))
    ++ [Media.listPath cwd; Media.concatenatedPath cwd; p1] ∧
  written (events_since w1 w1') ⊆ written (events_since w2 w2').
Proof.
  intros [-> H1]%merge_written [-> H2]%merge_written Hle.
  split; [done|]. split; [exact H1|].
  rewrite H1, H2. intros file [Hin|Hin]%elem_of_app; apply elem_of_app.
  - left. apply list_elem_of_fmap in Hin as (i & -> & Hi%elem_of_seq).
    apply list_elem_of_fmap. exists i. split; [done|]. apply elem_of_seq. lia.
  - by right.
Qed.

End SharedPaths.

Lemma jobs_share_paths_witness :
  let probe := Sample.probe_as Sample.hd1080 in
  let r1 := Media.mergeVideosWithMusic "/srv" probe Sample.ffmpeg_ok
              [Sample.clipA] Sample.song Sample.disk in
  let r2 := Media.mergeVideosWithMusic "/srv" probe Sample.ffmpeg_ok
              [Sample.clipB; Sample.clipA] Sample.song Sample.disk in
  r1.1 = Resolved "/srv/outputs/merged.mp4" ∧
  r2.1 = Resolved "/srv/outputs/merged.mp4" ∧
  written (events_since Sample.disk r1.2)
    ⊆ written (events_since Sample.disk r2.2).
Proof.
  intros probe r1 r2.
  assert (H1 : r1 = (Resolved "/srv/outputs/merged.mp4", r1.2))
    by (vm_compute; reflexivity).
  assert (H2 : r2 = (Resolved "/srv/outputs/merged.mp4", r2.2))
    by (vm_compute; reflexivity).
  split; [by rewrite H1|]. split; [by rewrite H2|].
  refine (proj2 (proj2 (jobs_share_paths "/srv" probe probe
    Sample.ffmpeg_ok Sample.ffmpeg_ok
    [Sample.clipA] Sample.song Sample.disk _ r1.2
    [Sample.clipB; Sample.clipA] Sample.song Sample.disk _ r2.2 H1 H2 _))).
  simpl. lia.
Defined.

(** C8, as stated, fails on any two jobs: one merging [beach.mp4] and one
    merging [city.mp4] write the same four paths, final artifact
    included. *)
Lemma jobs_disjoint_counterexample :
  let probe := Sample.probe_as Sample.hd1080 in
  let r1 := Media.mergeVideosWithMusic "/srv" probe Sample.ffmpeg_ok
              [Sample.clipA] Sample.song Sample.disk in
  let r2 := Media.mergeVideosWithMusic "/srv" probe Sample.ffmpeg_ok
              [Sample.clipB] Sample.song Sample.disk in
  Sample.clipA ≠ Sample.clipB ∧
  written (trace r1.2)
    = ["/srv/temp/processed_0.mp4"; "/srv/temp/filelist.txt";
       "/srv/temp/concatenated.mp4"; "/srv/outputs/merged.mp4"] ∧
  written (trace r2.2) = written (trace r1.2) ∧
  r1.1 = r2.1 ∧
  ¬ (∀ file, file ∈ written (trace r1.2) → file ∉ written (trace r2.2)).
Proof.
  intros probe r1 r2.
  assert (Hw1 : written (trace r1.2)
    = ["/srv/temp/processed_0.mp4"; "/srv/temp/filelist.txt";
       "/srv/temp/concatenated.mp4"; "/srv/outputs/merged.mp4"])
    by (vm_compute; reflexivity).
  assert (Hw2 : written (trace r2.2) = written (trace r1.2))
    by (vm_compute; reflexivity).
  split; [discriminate|]. split; [exact Hw1|]. split; [exact Hw2|].
  split; [vm_compute; reflexivity|].
  intros H. apply (H "/srv/temp/filelist.txt"); rewrite ?Hw2, Hw1; set_solver.
Qed.

(** ** The route *)

Lemma field_files_cons name fieldname file parts :
  field_files name ((fieldname, file) :: parts)
  = if decide (fieldname = name)
    then file :: field_files name parts
    else field_files name parts.
Proof.
  unfold field_files. rewrite filter_cons. simpl.
  by destruct (decide (fieldname = name)).
Qed.

Section Multer.

Variable fields : list (string * nat).

Lemma appendFiles_cons fieldname file rest reqFiles :
  Server.appendFiles fields ((fieldname, file) :: rest) reqFiles =
  match list_find (λ f, f.1 = fieldname) fields with
  | None => inl "Unexpected field"
  | Some (_, (_, maxCount)) =>
      let stored := default [] (reqFiles !! fieldname) in
      if decide (length stored < maxCount)
      then Server.appendFiles fields rest
             (<[fieldname := stored ++ [file]]> reqFiles)
      else inl "Unexpected field"
  end.
Proof. reflexivity. Qed.

(** What [req.files] holds when multer lets a body through: under every
    field the files that came under it, in order. *)
Lemma appendFiles_files parts reqFiles reqFiles' name :
  Server.appendFiles fields parts reqFiles = inr reqFiles' →
  default [] (reqFiles' !! name)
  = default [] (reqFiles !! name) ++ field_files name parts.
Proof.
  revert reqFiles. induction parts as [|[fieldname file] parts IH];
    intros reqFiles.
  - intros [= <-]. by rewrite app_nil_r.
  - rewrite appendFiles_cons.
    destruct (list_find _ fields) as [[? [? maxCount]]|]; [|done].
    simpl. case_decide as Hlen; [|done].
    intros H%IH. rewrite H, field_files_cons.
    destruct (decide (fieldname = name)) as [->|Hne].
    + rewrite lookup_insert_eq. simpl. by rewrite <- app_assoc.
    + by rewrite lookup_insert_ne.
Qed.

(** No field gets past its [maxCount]. *)
Lemma appendFiles_bound parts reqFiles reqFiles' name k f maxCount :
  Server.appendFiles fields parts reqFiles = inr reqFiles' →
  list_find (λ f, f.1 = name) fields = Some (k, (f, maxCount)) →
  field_files name parts ≠ [] →
  length (default [] (reqFiles' !! name)) ≤ maxCount.
Proof.
  intros H Hfield. revert reqFiles H.
  induction parts as [|[fieldname file] parts IH]; intros reqFiles; [done|].
  rewrite appendFiles_cons.
  destruct (list_find (λ f0, f0.1 = fieldname) fields)
    as [[k' [f' maxCount']]|] eqn:Hfind; [|done].
  cbv zeta. case_decide as Hlen; [|done].
  intros H. rewrite field_files_cons.
  destruct (decide (fieldname = name)) as [->|Hne]; [|by eauto].
  intros _. destruct (field_files name parts) as [|x l] eqn:Hrest.
  - rewrite (appendFiles_files _ _ _ name H), Hrest, app_nil_r.
    rewrite lookup_insert_eq. simpl. rewrite length_app. simpl.
    rewrite Hfield in Hfind. injection Hfind as _ _ ->. lia.
  - by apply (IH _ H).
Qed.

End Multer.

Lemma appendFiles_error fields parts reqFiles err :
  Server.appendFiles fields parts reqFiles = inl err → err = "Unexpected field".
Proof.
  revert reqFiles. induction parts as [|[fieldname file] parts IH];
    intros reqFiles; [done|].
  rewrite appendFiles_cons.
  destruct (list_find _ fields) as [[? [? maxCount]]|]; [|congruence].
  cbv zeta. case_decide; [apply IH | congruence].
Qed.

(** multer turns down a body with more parts under a field than the field
    allows. *)
Lemma upload_fields_over_limit parts name k f maxCount :
  list_find (λ f, f.1 = name) Server.mergeFields = Some (k, (f, maxCount)) →
  maxCount < length (field_files name parts) →
  Server.upload_fields Server.mergeFields (Some parts) = inl "Unexpected field".
Proof.
  intros Hfield Hlen. unfold Server.upload_fields.
  destruct (Server.appendFiles _ parts ∅) as [err|reqFiles'] eqn:H.
  - by rewrite (appendFiles_error _ _ _ _ H).
  - exfalso.
    assert (Hne : field_files name parts ≠ []).
    { intros Hnil. rewrite Hnil in Hlen. simpl in Hlen. lia. }
    pose proof (appendFiles_bound _ _ _ _ _ _ _ _ H Hfield Hne) as Hb.
    rewrite (appendFiles_files _ _ _ _ name H), lookup_empty in Hb.
    simpl in Hb. lia.
Qed.

Section RouteFacts.

Variable cwd : string.
Variable ffprobe : World → string → Exit Metadata.
Variable ffmpeg : World → Command → Exit unit.

(** C6: a job that reaches the pipeline has between 1 and 20 clips, the
    files that came under [videos] in their order, and exactly one audio
    input, the one file that came under [music].  A body with more than
    20 files under [videos], 21 say, is answered by the error handling
    middleware while the world is as it was: nothing has been probed. *)
Theorem accepted_job_counts req reqFiles videoFiles musicFile :
  Server.upload_fields Server.mergeFields req = inr reqFiles →
  Server.accept reqFiles = inr (videoFiles, musicFile) →
  (∃ parts, req = Some parts ∧
     videoFiles = field_files "videos" parts ∧
     [musicFile] = field_files "music" parts ∧
     1 ≤ length videoFiles ≤ 20) ∧
  (∀ parts21 w, 20 < length (field_files "videos" parts21) →
     Server.mergeRoute cwd ffprobe ffmpeg (Some parts21) w
     = (Resolved (Server.Json 500 "Internal server error"
                    (Some "Unexpected field")), w)).
Proof.
  intros Hup Hacc. split.
  - destruct req as [parts|]; [|by injection Hup as <-].
    exists parts. split; [done|].
    unfold Server.upload_fields in Hup.
    destruct (Server.appendFiles _ parts ∅) as [err|files'] eqn:H; [done|].
    injection Hup as <-. unfold Server.accept in Hacc.
    pose proof (appendFiles_files _ _ _ _ "videos" H) as Hv.
    pose proof (appendFiles_files _ _ _ _ "music" H) as Hm.
    rewrite lookup_empty in Hv, Hm. simpl in Hv, Hm.
    destruct (files' !! "videos") as [[|v vs]|] eqn:Ev; try done.
    destruct (files' !! "music") as [[|m ms]|] eqn:Em; try done.
    simpl in Hacc, Hv, Hm. injection Hacc as <- <-.
    assert (Hbv : length (default [] (files' !! "videos")) ≤ 20).
    { apply (appendFiles_bound Server.mergeFields parts ∅ files' "videos"
               0 "videos" 20 H eq_refl). by rewrite <- Hv. }
    assert (Hbm : length (default [] (files' !! "music")) ≤ 1).
    { apply (appendFiles_bound Server.mergeFields parts ∅ files' "music"
               1 "music" 1 H eq_refl). by rewrite <- Hm. }
    rewrite Ev in Hbv. rewrite Em in Hbm. simpl in Hbv, Hbm.
    destruct ms; [|simpl in Hbm; lia].
    split; [done|]. split; [done|]. simpl. lia.
  - intros parts21 w Hlen. unfold Server.mergeRoute.
    by rewrite (upload_fields_over_limit parts21 "videos" 0 "videos" 20
                  eq_refl Hlen).
Qed.

End RouteFacts.

Lemma accepted_job_counts_witness :
  (∃ reqFiles,
     Server.upload_fields Server.mergeFields Sample.upload = inr reqFiles ∧
     Server.accept reqFiles = inr ([Sample.clipA; Sample.clipB], Sample.song)) ∧
  length (field_files "videos" [("videos", Sample.clipA);
            ("videos", Sample.clipB); ("music", Sample.song)]) = 2 ∧
  Server.mergeRoute "/srv" (Sample.probe_as Sample.hd1080) Sample.ffmpeg_ok
    Sample.upload21 Sample.disk
  = (Resolved (Server.Json 500 "Internal server error"
                 (Some "Unexpected field")), Sample.disk).
Proof.
  destruct (Server.upload_fields Server.mergeFields Sample.upload)
    as [err|reqFiles] eqn:Hup; [discriminate Hup|].
  assert (Had : Server.accept reqFiles
                = inr ([Sample.clipA; Sample.clipB], Sample.song)).
  { injection Hup as <-. vm_compute. reflexivity. }
  destruct (accepted_job_counts "/srv" (Sample.probe_as Sample.hd1080)
              Sample.ffmpeg_ok Sample.upload reqFiles _ _ Hup Had)
    as [_ H21].
  split; [by exists reqFiles|]. split; [reflexivity|].
  apply H21. vm_compute. lia.
Defined.

(** ** The mux command *)

(** The audio is muxed onto the concatenated video with the video stream
    copied, the audio encoded to AAC at 192 kbit/s, and [-shortest]; how
    long the output then is, is up to ffmpeg. *)
Lemma mux_command_options cwd musicFile :
  inputs (Media.muxCommand cwd musicFile)
    = [(Media.concatenatedPath cwd, []); (path musicFile, [])] ∧
  output (Media.muxCommand cwd musicFile) = Media.outputPath cwd ∧
  ["-c:v copy"; "-c:a aac"; "-b:a 192k"; "-shortest"]
    ⊆ outputOptions (Media.muxCommand cwd musicFile).
Proof.
  split; [reflexivity|]. split; [reflexivity|].
  intros opt Hopt. simpl. unfold Media.muxOptions. set_solver.
Qed.

(** ** A job that fails *)

(** C1 on a job whose concatenation fails.  The route answers 500, and
    everything written so far is still on disk: both normalized
    intermediates and the manifest, next to the three uploads.  Not one
    [fs.unlink] was issued. *)
Lemma failed_job_leaves_files :
  let r := Server.mergeRoute "/srv" (Sample.probe_as Sample.hd1080)
             (Sample.ffmpeg_fail_on "/srv/temp/concatenated.mp4")
             Sample.upload Sample.disk in
  r.1 = Resolved (Server.Json 500 "Merge failed"
                    (Some "Video merge failed: ffmpeg exited with code 1")) ∧
  dom (files r.2)
  = {[ "/srv/temp/processed_0.mp4"; "/srv/temp/processed_1.mp4";
       "/srv/temp/filelist.txt";
       path Sample.clipA; path Sample.clipB; path Sample.song ]} ∧
  Forall (λ e, ∀ file, e ≠ Unlink file) (trace r.2).
Proof.
  split; [vm_compute; reflexivity|]. split.
  - apply set_eq. intros file. rewrite elem_of_dom.
    assert (Hf : files
      (Server.mergeRoute "/srv" (Sample.probe_as Sample.hd1080)
         (Sample.ffmpeg_fail_on "/srv/temp/concatenated.mp4")
         Sample.upload Sample.disk).2
      = {[ "/srv/temp/processed_0.mp4" :=
             Product (Media.processCommand (path Sample.clipA)
                        "/srv/temp/processed_0.mp4");
           "/srv/temp/processed_1.mp4" :=
             Product (Media.processCommand (path Sample.clipB)
                        "/srv/temp/processed_1.mp4");
           "/srv/temp/filelist.txt" := Text (manifest "/srv" 2);
           path Sample.clipA := Blob "beach"; path Sample.clipB := Blob "city";
           path Sample.song := Blob "tune" ]})
      by (vm_compute; reflexivity).
    rewrite Hf. rewrite <- elem_of_dom. set_solver.
  - vm_compute. repeat constructor; discriminate.
Qed.

(** The same job when every stage succeeds: the intermediates and the
    uploads are removed and the final artifact is left. *)
Lemma successful_job_leaves_output :
  let r := Server.mergeRoute "/srv" (Sample.probe_as Sample.hd1080)
             Sample.ffmpeg_ok Sample.upload Sample.disk in
  r.1 = Resolved (Server.Download "/srv/outputs/merged.mp4" "merged.mp4") ∧
  files r.2
  = {[ "/srv/outputs/merged.mp4" :=
         Product (Media.muxCommand "/srv" Sample.song) ]}.
Proof. split; vm_compute; reflexivity. Qed.

(** * Further properties *)

(** ** Verdicts of the validators *)

Lemma find_is_first_stream kind md s :
  find (λ x, String.eqb (codec_type x) kind) (streams md) = Some s →
  first_stream kind md s.
Proof.
  destruct md as [l]. simpl. induction l as [|x l IH]; [done|].
  simpl. destruct (String.eqb_spec (codec_type x) kind) as [Hx|Hx].
  - intros [= <-]. exists [], l. split; [done|]. split; [constructor | done].
  - intros (before & after & Hl & Hb & Hs)%IH. simpl in Hl.
    exists (x :: before), after. simpl. split; [by rewrite Hl|].
    split; [by constructor | done].
Qed.


Lemma includes_elem_of l x : includes l x = true ↔ x ∈ l.
Proof.
  unfold includes. rewrite existsb_exists. split.
  - intros (y & Hy & ->%String.eqb_eq). by apply list_elem_of_In.
  - intros H. exists x. split; [by apply list_elem_of_In|].
    apply String.eqb_refl.
Qed.

Section Verdicts.

Variable ffprobe : World → string → Exit Metadata.

(** X1: [validateVideos] lets a file through exactly when ffprobe exits
    with a result, the result has a stream of kind video, and the first
    such stream is in h264, hevc, vp8 or vp9 and is neither wider than
    3840 nor higher than 2160.  Nothing else about the file matters. *)
Theorem video_accepted_iff file w :
  (Media.validateVideo ffprobe file w).1 = Resolved tt ↔
  ∃ md s,
    ffprobe w (path file) = Exited0 md ∧
    first_stream "video" md s ∧
    codec_name s ∈ ["h264"; "hevc"; "vp8"; "vp9"] ∧
    js_gt (width s) 3840 = false ∧
    js_gt (height s) 2160 = false.
Proof.
  rewrite validateVideo_failed.
  destruct (ffprobe w (path file)) as [md|d|] eqn:Hp.
  - rewrite (validateVideo_probed _ _ _ _ Hp). cbn [fst]. split.
    + destruct (find _ (streams md)) as [s|] eqn:Hf; [|done].
      destruct (includes Media.supportedVideoCodecs (codec_name s)) eqn:Hc;
        [|done]. cbn [negb].
      destruct (js_gt (width s) 3840) eqn:Hw; [done|].
      destruct (js_gt (height s) 2160) eqn:Hh; [done|]. intros _.
      exists md, s. split; [done|].
      split; [by apply find_is_first_stream|].
      split; [by apply includes_elem_of | done].
    + intros (md' & s & [= <-] & Hs & Hc & Hw & Hh).
      rewrite (find_first_stream _ _ _ Hs).
      apply includes_elem_of in Hc.
      unfold Media.supportedVideoCodecs. by rewrite Hc, Hw, Hh.
  - split; [done|]. by intros (md & s & [=] & _).
  - split; [done|]. by intros (md & s & [=] & _).
Qed.

(** X2: [validateMusic] lets a file through exactly when ffprobe exits
    with a result whose first stream of kind audio is in aac, mp3, opus or
    vorbis. *)
Theorem music_accepted_iff file w :
  (Media.validateMusic ffprobe file w).1 = Resolved tt ↔
  ∃ md s,
    ffprobe w (path file) = Exited0 md ∧
    first_stream "audio" md s ∧
    codec_name s ∈ ["aac"; "mp3"; "opus"; "vorbis"].
Proof.
  rewrite validateMusic_failed.
  destruct (ffprobe w (path file)) as [md|d|] eqn:Hp.
  - rewrite (validateMusic_probed _ _ _ _ Hp). cbn [fst]. split.
    + destruct (find _ (streams md)) as [s|] eqn:Hf; [|done].
      destruct (includes Media.supportedAudioCodecs (codec_name s)) eqn:Hc;
        [|done]. intros _.
      exists md, s. split; [done|].
      split; [by apply find_is_first_stream | by apply includes_elem_of].
    + intros (md' & s & [= <-] & Hs & Hc).
      rewrite (find_first_stream _ _ _ Hs).
      apply includes_elem_of in Hc.
      unfold Media.supportedAudioCodecs. by rewrite Hc.
  - split; [done|]. by intros (md & s & [=] & _).
  - split; [done|]. by intros (md & s & [=] & _).
Qed.



End Verdicts.

(** ** The order of the steps *)

Lemma plays_resolve {A} (a : A) : plays (resolve a) [].
Proof.
  intros w o w' [= <- <-]. exists []. rewrite app_nil_r.
  split; [done|]. split; [done|]. done.
Qed.

Lemma plays_await {A B} (m : Async A) (k : A → Async B) s1 s2 :
  plays m s1 →
  (∀ a w w1, m w = (Resolved a, w1) → plays (k a) s2) →
  plays (m ≫= k) (s1 ++ s2).
Proof.
  intros Hm Hk w o w'. rewrite await_eq.
  destruct (m w) as [[a|e|] w1] eqn:E;
    destruct (Hm _ _ _ E) as (t1 & Ht1 & Hp1 & Hr1).
  - intros Hka. destruct (Hk a _ _ E _ _ _ Hka) as (t2 & Ht2 & Hp2 & Hr2).
    rewrite (Hr1 a eq_refl) in Ht1. exists (s1 ++ t2).
    split; [by rewrite Ht2, Ht1, app_assoc|].
    split; [destruct Hp2 as [k2 ->]; exists k2; by rewrite <- app_assoc|].
    intros b Hb. by rewrite (Hr2 b Hb).
  - intros [= <- <-]. exists t1. split; [done|].
    split; [by apply prefix_app_r | done].
  - intros [= <- <-]. exists t1. split; [done|].
    split; [by apply prefix_app_r | done].
Qed.

Lemma plays_event {A} (m : Async A) ev :
  (∀ w o w', m w = (o, w') → trace w' = trace w ++ [ev]) → plays m [ev].
Proof.
  intros H w o w' Hm. exists [ev]. split; [by eapply H|]. done.
Qed.

Section Order.

Variable cwd : string.
Variable ffprobe : World → string → Exit Metadata.
Variable ffmpeg : World → Command → Exit unit.

Lemma plays_validateVideo file :
  plays (Media.validateVideo ffprobe file) [Probe (path file)].
Proof.
  apply plays_event. intros w o w' H.
  by rewrite (validateVideo_world _ _ _ _ _ H).
Qed.

Lemma plays_validateMusic file :
  plays (Media.validateMusic ffprobe file) [Probe (path file)].
Proof.
  apply plays_event. intros w o w' H.
  by rewrite (validateMusic_world _ _ _ _ _ H).
Qed.

Lemma plays_validateVideos videoFiles :
  plays (Media.validateVideos ffprobe videoFiles)
    (map (λ f, Probe (path f)) videoFiles).
Proof.
  induction videoFiles as [|file rest IH]; [apply plays_resolve|].
  apply (plays_await _ _ [Probe (path file)]);
    [apply plays_validateVideo | intros; exact IH].
Qed.

Lemma plays_run cmd : plays (Media.run ffmpeg cmd) [Run cmd].
Proof.
  apply plays_event. intros w o w'. rewrite run_eq.
  destruct (ffmpeg w cmd) as [[]|d|]; by intros [= <- <-].
Qed.

Lemma plays_processVideos videoFiles i acc :
  plays (Media.processVideos cwd ffmpeg videoFiles i acc)
    (map Run (encodes cwd i videoFiles)).
Proof.
  revert i acc. induction videoFiles as [|video rest IH]; intros i acc.
  - apply plays_resolve.
  - rewrite encodes_cons.
    apply (plays_await _ _ [Run _]); [apply plays_run | intros; apply IH].
Qed.

Lemma plays_unlinkAll l : plays (Media.unlinkAll l) (map Unlink l).
Proof.
  intros w o w'. rewrite unlinkAll_eq. intros [= <- <-].
  exists (map Unlink l). by rewrite trace_after_unlinks.
Qed.

Lemma plays_merge videoFiles musicFile :
  plays (Media.mergeVideosWithMusic cwd ffprobe ffmpeg videoFiles musicFile)
    (script cwd videoFiles musicFile).
Proof.
  intros w o w' H. rewrite merge_unfold in H.
  match type of H with context [match ?m w with _ => _ end] =>
    assert (Hbody : plays m (script cwd videoFiles musicFile)) end.
  { unfold script. rewrite map_app, <- !app_assoc.
    apply plays_await; [apply plays_validateVideos | intros _ _ _ _].
    apply (plays_await _ _ [Probe _]);
      [apply plays_validateMusic | intros _ _ _ _].
    apply plays_await; [apply plays_processVideos | intros ps w1 w2 Hps].
    apply processVideos_resolved in Hps as [Hps _]. simpl in Hps. subst ps.
    rewrite fileList_manifest.
    apply (plays_await _ _ [WriteFile _ _]).
    { apply plays_event. by intros ? ? ? [= <- <-]. }
    intros _ _ _ _.
    apply (plays_await _ _ [Run _]); [apply plays_run | intros _ _ _ _].
    apply (plays_await _ _ [Run _]); [apply plays_run | intros _ _ _ _].
    rewrite <- (app_nil_r (map Unlink _)).
    apply plays_await; [apply plays_unlinkAll | intros; apply plays_resolve]. }
  match type of H with context [match ?m w with _ => _ end] =>
    destruct (m w) as [[p|e|] w1] eqn:E end;
    injection H as <- <-; destruct (Hbody _ _ _ E) as (t & Ht & Hp & Hr);
    exists t; split; try done; split; try done.
Qed.


(** X6: no clip is normalized, and nothing is written, before every
    input has been probed: when the log of a merge holds anything but
    probes, it starts with the probes of all the clips and of the audio. *)
Theorem validation_comes_first videoFiles musicFile w ev :
  let r := Media.mergeVideosWithMusic cwd ffprobe ffmpeg videoFiles
             musicFile w in
  ev ∈ events_since w r.2 →
  (∀ file, ev ≠ Probe file) →
  map (λ f, Probe (path f)) (videoFiles ++ [musicFile])
    `prefix_of` events_since w r.2.
Proof.
  intros r Hev Hnp.
  destruct (plays_merge videoFiles musicFile w r.1 r.2
              (surjective_pairing _)) as (t & Ht & Hp & _).
  unfold events_since in *. rewrite Ht, drop_app_length in *.
  unfold script in Hp.
  set (probes := map (λ f, Probe (path f)) (videoFiles ++ [musicFile])) in *.
  destruct (prefix_weak_total t probes _ Hp (prefix_app_r _ _ _ (reflexivity _)))
    as [Hpre|Hpre]; [|done]. exfalso.
  assert (Hin : ev ∈ probes).
  { destruct Hpre as [k ->]. apply elem_of_app. by left. }
  apply list_elem_of_fmap in Hin as (f & -> & _). by apply (Hnp (path f)).
Qed.

End Order.

(** ** The files a merge works on *)

Lemma keeps_outside_mono {A} (m : Async A) paths paths' :
  paths ⊆ paths' → keeps_outside paths m → keeps_outside paths' m.
Proof. intros Hsub Hm w o w' file H Hfile. apply (Hm w o w' file H). set_solver. Qed.

Lemma keeps_outside_await {A B} (m : Async A) (k : A → Async B) paths :
  keeps_outside paths m →
  (∀ a w w1, m w = (Resolved a, w1) → keeps_outside paths (k a)) →
  keeps_outside paths (m ≫= k).
Proof.
  intros Hm Hk w o w' file. rewrite await_eq.
  destruct (m w) as [[a|e|] w1] eqn:E; intros H Hfile.
  - rewrite (Hk a _ _ E _ _ _ _ H Hfile). by apply (Hm _ _ _ _ E).
  - injection H as <- <-. by apply (Hm _ _ _ _ E).
  - injection H as <- <-. by apply (Hm _ _ _ _ E).
Qed.

Lemma keeps_outside_resolve {A} (a : A) paths : keeps_outside paths (resolve a).
Proof. by intros w o w' file [= <- <-]. Qed.

Lemma files_after_unlinks_keep l w file :
  file ∉ l → files (after_unlinks l w) !! file = files w !! file.
Proof. intros H. rewrite files_after_unlinks. by rewrite decide_False. Qed.

Lemma artifacts_processed cwd n :
  map (Media.processedPath cwd) (seq 0 n) ⊆ artifacts cwd n.
Proof. unfold artifacts. set_solver. Qed.

Lemma artifacts_fixed cwd n :
  Media.listPath cwd ∈ artifacts cwd n ∧
  Media.concatenatedPath cwd ∈ artifacts cwd n ∧
  Media.outputPath cwd ∈ artifacts cwd n.
Proof. unfold artifacts. set_solver. Qed.

Lemma artifacts_temp cwd n :
  map (Media.processedPath cwd) (seq 0 n)
  ++ [Media.listPath cwd; Media.concatenatedPath cwd] ⊆ artifacts cwd n.
Proof. unfold artifacts. set_solver. Qed.

Lemma subseteq_not_elem_of (l k : list string) file :
  l ⊆ k → file ∉ k → file ∉ l.
Proof. set_solver. Qed.

Section Frame.

Variable cwd : string.
Variable ffprobe : World → string → Exit Metadata.
Variable ffmpeg : World → Command → Exit unit.

Lemma keeps_outside_validateVideos videoFiles paths :
  keeps_outside paths (Media.validateVideos ffprobe videoFiles).
Proof.
  induction videoFiles as [|file rest IH]; [apply keeps_outside_resolve|].
  apply keeps_outside_await; [|intros; exact IH].
  intros w o w' f H _. by rewrite (validateVideo_world _ _ _ _ _ H).
Qed.

Lemma keeps_outside_validateMusic file paths :
  keeps_outside paths (Media.validateMusic ffprobe file).
Proof. intros w o w' f H _. by rewrite (validateMusic_world _ _ _ _ _ H). Qed.

Lemma keeps_outside_run cmd paths :
  output cmd ∈ paths → keeps_outside paths (Media.run ffmpeg cmd).
Proof.
  intros Hout w o w' file. rewrite run_eq.
  destruct (ffmpeg w cmd) as [[]|d|]; intros [= <- <-] Hfile; [|done..].
  simpl. apply lookup_insert_ne. by intros <-.
Qed.

Lemma keeps_outside_processVideos videoFiles i acc paths :
  map (Media.processedPath cwd) (seq i (length videoFiles)) ⊆ paths →
  keeps_outside paths (Media.processVideos cwd ffmpeg videoFiles i acc).
Proof.
  revert i acc. induction videoFiles as [|video rest IH]; intros i acc Hsub.
  - apply keeps_outside_resolve.
  - apply keeps_outside_await.
    + apply keeps_outside_run. apply Hsub. simpl. apply list_elem_of_here.
    + intros _ _ _ _. apply IH. intros f Hf. apply Hsub. simpl.
      by apply list_elem_of_further.
Qed.

Lemma keeps_outside_unlinkAll l paths :
  l ⊆ paths → keeps_outside paths (Media.unlinkAll l).
Proof.
  intros Hsub w o w' file. rewrite unlinkAll_eq. intros [= <- <-] Hfile.
  apply files_after_unlinks_keep. by apply (subseteq_not_elem_of _ paths).
Qed.

Lemma keeps_outside_merge videoFiles musicFile :
  keeps_outside (artifacts cwd (length videoFiles))
    (Media.mergeVideosWithMusic cwd ffprobe ffmpeg videoFiles musicFile).
Proof.
  intros w o w' file H. rewrite merge_unfold in H.
  destruct (artifacts_fixed cwd (length videoFiles)) as (Hl & Hc & Ho).
  match type of H with context [match ?m w with _ => _ end] =>
    assert (Hbody : keeps_outside (artifacts cwd (length videoFiles)) m) end.
  { apply keeps_outside_await;
      [apply keeps_outside_validateVideos | intros _ _ _ _].
    apply keeps_outside_await;
      [apply keeps_outside_validateMusic | intros _ _ _ _].
    apply keeps_outside_await.
    { apply keeps_outside_processVideos, artifacts_processed. }
    intros ps w1 w2 Hps.
    apply processVideos_resolved in Hps as [Hps _]. simpl in Hps. subst ps.
    apply keeps_outside_await.
    { intros w3 o3 w3' f [= <- <-] Hf. simpl. apply lookup_insert_ne.
      by intros <-. }
    intros _ _ _ _.
    apply keeps_outside_await;
      [by apply keeps_outside_run | intros _ _ _ _].
    apply keeps_outside_await;
      [by apply keeps_outside_run | intros _ _ _ _].
    apply keeps_outside_await;
      [|intros; apply keeps_outside_resolve].
    apply keeps_outside_unlinkAll, artifacts_temp. }
  match type of H with context [match ?m w with _ => _ end] =>
    destruct (m w) as [[p|e|] w1] eqn:E end;
    injection H as <- <-; exact (Hbody _ _ _ _ E).
Qed.

(** X7: a merge creates, replaces and removes files only at its own
    paths: the intermediates [processed_<i>.mp4] of its clips, the
    manifest, the concatenated file and the final artifact.  Every other
    file, the uploads among them, holds after the merge what it held
    before, however the merge ends. *)
Theorem merge_touches_only_artifacts videoFiles musicFile w file :
  file ∉ artifacts cwd (length videoFiles) →
  files (Media.mergeVideosWithMusic cwd ffprobe ffmpeg videoFiles
           musicFile w).2 !! file
  = files w !! file.
Proof.
  intros Hfile.
  exact (keeps_outside_merge videoFiles musicFile w _ _ file
           (surjective_pairing _) Hfile).
Qed.

(** X8: [Promise.all] over the [fs.unlink] calls with their [catch]
    always resolves.  Afterwards none of the listed files exists, whether
    it existed before or not, every other file is as it was, and one
    unlink was issued per entry of the list. *)
Theorem unlinkAll_best_effort l w :
  (Media.unlinkAll l w).1 = Resolved tt ∧
  (∀ file, files (Media.unlinkAll l w).2 !! file
           = if decide (file ∈ l) then None else files w !! file) ∧
  trace (Media.unlinkAll l w).2 = trace w ++ map Unlink l.
Proof.
  rewrite unlinkAll_eq. split; [done|]. split.
  - intros file. apply files_after_unlinks.
  - apply trace_after_unlinks.
Qed.

(** X9: normalization stops at the first clip ffmpeg fails on.  The clips
    before it have their intermediates on disk, the failing command is
    the last thing logged, no later clip is touched, and the merge is
    rejected with the diagnostic of ffmpeg behind
    [Video merge failed: ]. *)
Theorem normalization_fail_fast videoFiles musicFile w w1 e w' :
  (Media.validateVideos ffprobe videoFiles;;
   Media.validateMusic ffprobe musicFile) w = (Resolved tt, w1) →
  Media.processVideos cwd ffmpeg videoFiles 0 [] w1 = (Rejected e, w') →
  (∃ finished bad rest,
     let cmd := Media.processCommand (path bad)
                  (Media.processedPath cwd (length finished)) in
     let w2 := after_runs (encodes cwd 0 finished) w1 in
     videoFiles = finished ++ bad :: rest ∧
     ffmpeg w2 cmd = ExitedError e ∧
     w' = log (Run cmd) w2) ∧
  Media.mergeVideosWithMusic cwd ffprobe ffmpeg videoFiles musicFile w
    = (Rejected ("Video merge failed: " +:+ e), w').
Proof.
  intros Hval Hnorm. split.
  - clear Hval. revert Hnorm.
    assert (Hgen : ∀ vs i acc w0,
      Media.processVideos cwd ffmpeg vs i acc w0 = (Rejected e, w') →
      ∃ finished bad rest,
        vs = finished ++ bad :: rest ∧
        ffmpeg (after_runs (encodes cwd i finished) w0)
          (Media.processCommand (path bad)
             (Media.processedPath cwd (i + length finished)))
          = ExitedError e ∧
        w' = log (Run (Media.processCommand (path bad)
                         (Media.processedPath cwd (i + length finished))))
               (after_runs (encodes cwd i finished) w0)).
    { induction vs as [|video rest IH]; intros i acc w0; [done|].
      change (Media.processVideos cwd ffmpeg (video :: rest) i acc)
        with (Media.processVideo ffmpeg (path video) (Media.processedPath cwd i);;
              Media.processVideos cwd ffmpeg rest (S i)
                (acc ++ [Media.processedPath cwd i])).
      rewrite await_eq. unfold Media.processVideo. rewrite run_eq.
      destruct (ffmpeg w0 _) as [[]|d|] eqn:Hc; [|intros [= <- <-]|done].
      - intros (finished & bad & rest' & -> & Hbad & ->)%IH.
        exists (video :: finished), bad, rest'.
        rewrite encodes_cons. simpl length.
        rewrite Nat.add_succ_r in *. done.
      - exists [], video, rest. rewrite Nat.add_0_r. done. }
    intros (finished & bad & rest & -> & Hbad & ->)%Hgen.
    by exists finished, bad, rest.
  - rewrite merge_unfold.
    apply await_resolved_inv in Hval as ([] & wv & Hv & Hm).
    rewrite (await_resolved _ _ _ _ _ Hv), (await_resolved _ _ _ _ _ Hm).
    by rewrite (await_rejected _ _ _ _ _ Hnorm).
Qed.

(** X10: what a merge that succeeds leaves behind.  It returns
    [outputs/merged.mp4]; that path holds the product of the mux; the
    paths of the intermediates, of the manifest and of the concatenated
    file hold nothing, also when a file was there before the merge; and
    all other files are as they were. *)
Theorem successful_merge_files videoFiles musicFile w p w' :
  Media.mergeVideosWithMusic cwd ffprobe ffmpeg videoFiles musicFile w
    = (Resolved p, w') →
  p = Media.outputPath cwd ∧
  ∀ file,
    files w' !! file =
    if decide (file = Media.outputPath cwd)
    then Some (Product (Media.muxCommand cwd musicFile))
    else if decide (file ∈ map (Media.processedPath cwd)
                             (seq 0 (length videoFiles))
                           ++ [Media.listPath cwd; Media.concatenatedPath cwd])
    then None
    else files w !! file.
Proof.
  intros H. destruct (merge_success_cleans _ _ _ _ _ _ _ _ H)
    as (Hproc & Hlist & Hconcat & Hout).
  pose proof (merge_resolved _ _ _ _ _ _ _ _ H) as [-> Hw'].
  split; [done|]. intros file.
  destruct (decide (file = Media.outputPath cwd)) as [->|Hne]; [done|].
  destruct (decide (file ∈ _)) as [Hin|Hnin].
  - apply elem_of_app in Hin as [Hin|Hin].
    + apply list_elem_of_fmap in Hin as (i & -> & Hi%elem_of_seq).
      apply Hproc. lia.
    + apply list_elem_of_In in Hin. destruct Hin as [<-|[<-|[]]]; done.
  - assert (Hout' : file ∉ artifacts cwd (length videoFiles)).
    { unfold artifacts. intros Hin. apply elem_of_app in Hin as [Hin|Hin].
      - apply Hnin, elem_of_app. by left.
      - apply list_elem_of_In in Hin.
        destruct Hin as [<-|[<-|[<-|[]]]]; [| |done];
          apply Hnin, elem_of_app; right; apply list_elem_of_In; simpl; auto. }
    exact (keeps_outside_merge videoFiles musicFile w _ _ file H Hout').
Qed.

End Frame.

(** X11: the paths of one merge are pairwise different: no intermediate
    shares its path with another one, with the manifest, with the
    concatenated file or with the final artifact. *)
Theorem artifact_paths_distinct cwd n : NoDup (artifacts cwd n).
Proof.
  unfold artifacts. apply NoDup_app. split; [|split].
  - assert (Hinj : Inj (=) (=) (Media.processedPath cwd)).
    { intros i j. apply processedPath_inj. }
    apply (NoDup_fmap_2 (Media.processedPath cwd)), NoDup_seq.
  - intros file (i & -> & _)%list_elem_of_fmap Hin.
    apply list_elem_of_In in Hin.
    rewrite processedPath_eq, listPath_eq, concatenatedPath_eq, outputPath_eq
      in Hin.
    destruct Hin as [H|[H|[H|[]]]]; apply append_cancel_l in H; discriminate H.
  - rewrite listPath_eq, concatenatedPath_eq, outputPath_eq.
    repeat (apply NoDup_cons; split;
            [rewrite ?elem_of_cons, elem_of_nil;
             intros H; repeat destruct H as [H|H]; try done;
             apply append_cancel_l in H; discriminate H|]).
    apply NoDup_nil_2.
Qed.

(** ** Answers of the route *)

Lemma appendFiles_known fields parts reqFiles reqFiles' :
  Server.appendFiles fields parts reqFiles = inr reqFiles' →
  ∀ part, part ∈ parts → part.1 ∈ fields.*1.
Proof.
  revert reqFiles. induction parts as [|[fieldname file] parts IH];
    intros reqFiles H part Hpart; [by apply elem_of_nil in Hpart|].
  rewrite appendFiles_cons in H.
  destruct (list_find _ fields) as [[k [f maxCount]]|] eqn:Hfind; [|done].
  cbv zeta in H. case_decide; [|done].
  apply elem_of_cons in Hpart as [->|Hpart]; [|by eapply IH].
  apply list_find_Some in Hfind as (Hk & Hf & _). simpl in *. subst f.
  apply list_elem_of_fmap. exists (fieldname, maxCount).
  split; [done|]. by eapply list_elem_of_lookup_2.
Qed.

Lemma field_files_elem name part parts :
  part ∈ parts → part.1 = name → part.2 ∈ field_files name parts.
Proof.
  intros Hin Hname. unfold field_files. apply list_elem_of_fmap.
  exists part. split; [done|]. by apply list_elem_of_filter.
Qed.

(** What the handler makes of a body multer let through. *)
Lemma accept_fields parts reqFiles :
  Server.upload_fields Server.mergeFields (Some parts) = inr reqFiles →
  Server.accept reqFiles =
  match field_files "videos" parts, field_files "music" parts with
  | [], _ => inl (Server.Json 400 "No video files uploaded" None)
  | _ :: _, [] => inl (Server.Json 400 "No music file uploaded" None)
  | videoFiles, musicFile :: _ => inr (videoFiles, musicFile)
  end.
Proof.
  unfold Server.upload_fields.
  destruct (Server.appendFiles _ parts ∅) as [err|files'] eqn:H; [done|].
  intros [= <-]. unfold Server.accept.
  pose proof (appendFiles_files _ _ _ _ "videos" H) as Hv.
  pose proof (appendFiles_files _ _ _ _ "music" H) as Hm.
  rewrite lookup_empty in Hv, Hm. simpl in Hv, Hm. rewrite <- Hv, <- Hm.
  destruct (files' !! "videos") as [[|v vs]|]; try done.
  destruct (files' !! "music") as [[|m ms]|]; done.
Qed.

Lemma field_files_music_one parts reqFiles m ms :
  Server.upload_fields Server.mergeFields (Some parts) = inr reqFiles →
  field_files "music" parts = m :: ms → ms = [].
Proof.
  unfold Server.upload_fields.
  destruct (Server.appendFiles _ parts ∅) as [err|files'] eqn:H; [done|].
  intros _ Hm.
  assert (Hb : length (default [] (files' !! "music")) ≤ 1).
  { apply (appendFiles_bound Server.mergeFields parts ∅ files' "music"
             1 "music" 1 H eq_refl). by rewrite Hm. }
  rewrite (appendFiles_files _ _ _ _ "music" H), lookup_empty, Hm in Hb.
  destruct ms; [done | simpl in Hb; lia].
Qed.


Section Answers.

Variable cwd : string.
Variable ffprobe : World → string → Exit Metadata.
Variable ffmpeg : World → Command → Exit unit.


(** The handler once the job is accepted. *)
Lemma handler_accepted reqFiles videoFiles musicFile w :
  Server.accept reqFiles = inr (videoFiles, musicFile) →
  Server.handler cwd ffprobe ffmpeg reqFiles w =
  match Media.mergeVideosWithMusic cwd ffprobe ffmpeg videoFiles musicFile w with
  | (Resolved p, w1) =>
      (Resolved (Server.Download p "merged.mp4"),
       after_unlinks [path musicFile] (after_unlinks (map path videoFiles) w1))
  | (Rejected e, w1) => (Resolved (Server.Json 500 "Merge failed" (Some e)), w1)
  | (Pending, w1) => (Pending, w1)
  end.
Proof.
  intros Hacc. unfold Server.handler, try_catch. rewrite Hacc, await_eq.
  destruct (Media.mergeVideosWithMusic _ _ _ _ _ w) as [[p|e|] w1]; try done.
  by rewrite await_eq, unlinkAll_eq, await_eq, unlinkAll_eq.
Qed.

Lemma handler_refused reqFiles response w :
  Server.accept reqFiles = inl response →
  Server.handler cwd ffprobe ffmpeg reqFiles w = (Resolved response, w).
Proof. intros Hacc. unfold Server.handler, try_catch. by rewrite Hacc. Qed.

(** X12: the checks of the handler, on a body that multer let through:
    without a file under [videos] the answer is 400
    [No video files uploaded], also when there is no music either; with
    clips but no file under [music] it is 400 [No music file uploaded]; in
    both cases, as for a request that is not multipart, nothing is probed
    and no file is touched.  Otherwise the clips are handed to the merge
    in the order they arrived. *)
Theorem handler_checks parts reqFiles w :
  Server.upload_fields Server.mergeFields (Some parts) = inr reqFiles →
  Server.mergeRoute cwd ffprobe ffmpeg None w
    = (Resolved (Server.Json 400 "No files uploaded" None), w) ∧
  match field_files "videos" parts, field_files "music" parts with
  | [], _ =>
      Server.mergeRoute cwd ffprobe ffmpeg (Some parts) w
      = (Resolved (Server.Json 400 "No video files uploaded" None), w)
  | _ :: _, [] =>
      Server.mergeRoute cwd ffprobe ffmpeg (Some parts) w
      = (Resolved (Server.Json 400 "No music file uploaded" None), w)
  | videoFiles, musicFile :: _ =>
      Server.mergeRoute cwd ffprobe ffmpeg (Some parts) w
      = Server.handler cwd ffprobe ffmpeg reqFiles w ∧
      Server.accept reqFiles = inr (videoFiles, musicFile)
  end.
Proof.
  intros Hup. split; [reflexivity|].
  pose proof (accept_fields _ _ Hup) as Hacc.
  unfold Server.mergeRoute. rewrite Hup.
  destruct (field_files "videos" parts) as [|v vs];
    [by apply handler_refused|].
  destruct (field_files "music" parts) as [|m ms];
    [by apply handler_refused | done].
Qed.


(** X14: after the download was answered, every file the request had
    uploaded is removed, the clips and the music, and so are the
    intermediates; the final artifact is left, provided no upload was
    stored under its path. *)
Theorem download_removes_uploads parts w file filename w' :
  Server.mergeRoute cwd ffprobe ffmpeg (Some parts) w
    = (Resolved (Server.Download file filename), w') →
  (∀ part, part ∈ parts → files w' !! path part.2 = None) ∧
  (∀ i, i < length (field_files "videos" parts) →
        files w' !! Media.processedPath cwd i = None) ∧
  files w' !! Media.listPath cwd = None ∧
  files w' !! Media.concatenatedPath cwd = None ∧
  ((∀ part, part ∈ parts → path part.2 ≠ file) → is_Some (files w' !! file)).
Proof.
  unfold Server.mergeRoute.
  destruct (Server.upload_fields Server.mergeFields (Some parts))
    as [err|reqFiles] eqn:Hup; [done|].
  pose proof (accept_fields _ _ Hup) as Hacc.
  assert (Hknown : ∀ part, part ∈ parts → part.1 = "videos" ∨ part.1 = "music").
  { unfold Server.upload_fields in Hup.
    destruct (Server.appendFiles _ parts ∅) as [?|files'] eqn:H; [done|].
    intros part Hpart.
    pose proof (appendFiles_known _ _ _ _ H part Hpart) as Hf. simpl in Hf.
    apply list_elem_of_In in Hf. simpl in Hf. naive_solver. }
  destruct (field_files "videos" parts) as [|v vs] eqn:Hvs.
  { rewrite (handler_refused _ _ _ Hacc). done. }
  destruct (field_files "music" parts) as [|m ms] eqn:Hms.
  { rewrite (handler_refused _ _ _ Hacc). done. }
  pose proof (field_files_music_one _ _ _ _ Hup Hms) as ->.
  rewrite (handler_accepted _ _ _ _ Hacc).
  destruct (Media.mergeVideosWithMusic _ _ _ _ _ w) as [[p|e|] w1] eqn:Hm;
    [|done..].
  intros [= <- <- <-].
  destruct (merge_success_cleans _ _ _ _ _ _ _ _ Hm)
    as (Hproc & Hlist & Hconcat & Hout).
  assert (Hlook : ∀ f, files (after_unlinks [path m]
                                (after_unlinks (map path (v :: vs)) w1)) !! f
                       = if decide (f ∈ map path (v :: vs) ++ [path m])
                         then None else files w1 !! f).
  { intros f. rewrite !files_after_unlinks.
    repeat case_decide; try done; exfalso; set_solver. }
  assert (Hgone : ∀ f, files w1 !! f = None →
            files (after_unlinks [path m]
                     (after_unlinks (map path (v :: vs)) w1)) !! f = None).
  { intros f Hf. rewrite Hlook. by case_decide. }
  split; [|split; [|split; [|split]]].
  - intros part Hpart. rewrite Hlook. rewrite decide_True; [done|].
    apply elem_of_app. destruct (Hknown part Hpart) as [Hn|Hn].
    + left. rewrite <- Hvs. apply list_elem_of_fmap.
      exists part.2. split; [done|]. by apply field_files_elem.
    + right. pose proof (field_files_elem "music" part parts Hpart Hn) as Hin.
      rewrite Hms in Hin. apply list_elem_of_singleton in Hin as ->.
      apply list_elem_of_here.
  - intros i Hi. by apply Hgone, Hproc.
  - by apply Hgone.
  - by apply Hgone.
  - intros Hfree. rewrite Hlook, decide_False; [by rewrite Hout|].
    intros Hin. apply elem_of_app in Hin as [Hin|Hin].
    + apply list_elem_of_fmap in Hin as (x & Hx & Hin).
      rewrite <- Hvs in Hin. unfold field_files in Hin.
      apply list_elem_of_fmap in Hin as (part & -> & Hpart).
      apply list_elem_of_filter in Hpart as [_ Hpart].
      by apply (Hfree part Hpart).
    + apply list_elem_of_singleton in Hin.
      assert (Hmin : m ∈ field_files "music" parts)
        by (rewrite Hms; apply list_elem_of_here).
      unfold field_files in Hmin.
      apply list_elem_of_fmap in Hmin as (part & -> & Hpart).
      apply list_elem_of_filter in Hpart as [_ Hpart].
      by apply (Hfree part Hpart).
Qed.

End Answers.

(** ** Names of the uploads *)

Lemma pretty_N_go_dashless x s : dashless s → dashless (pretty_N_go x s).
Proof.
  revert s. induction (N.lt_wf_0 x) as [x _ IH]; intros s Hs.
  destruct (decide (x = 0%N)) as [->|Hx]; [by rewrite pretty_N_go_0|].
  rewrite pretty_N_go_step by lia.
  apply IH; [apply N.div_lt; lia|].
  split; [|exact Hs]. unfold pretty_N_char. by repeat case_match.
Qed.

Lemma pretty_N_dashless (x : N) : dashless (pretty x).
Proof.
  unfold pretty, pretty_N. case_decide; [by split|].
  by apply pretty_N_go_dashless.
Qed.

Lemma dash_splits a a' b b' :
  dashless a → dashless a' →
  a +:+ "-" +:+ b = a' +:+ "-" +:+ b' → a = a' ∧ b = b'.
Proof.
  revert a'. induction a as [|c a IH]; intros [|c' a'] Ha Ha' H.
  - apply (append_cancel_l "-") in H. by subst.
  - exfalso. destruct Ha' as [Hc _]. apply Hc.
    apply (f_equal (λ s, match s with String x _ => String x "" | _ => "" end))
      in H. exact (eq_sym H).
  - exfalso. destruct Ha as [Hc _]. apply Hc.
    apply (f_equal (λ s, match s with String x _ => String x "" | _ => "" end))
      in H. exact H.
  - destruct Ha as [_ Ha], Ha' as [_ Ha'].
    assert (Hc : c = c') by (by injection H).
    assert (Hr : a +:+ "-" +:+ b = a' +:+ "-" +:+ b') by (by injection H).
    destruct (IH a' Ha Ha' Hr) as [-> ->]. by subst.
Qed.

Section Uploads.

Variable cwd : string.
Variable extname : string → string.

(** X15: two uploads whose names have the same extension are stored under
    the same name only when their timestamps and their random numbers are
    both the same. *)
Theorem filename_injective now random original now' random' original' :
  extname original = extname original' →
  Storage.filename extname now random original
    = Storage.filename extname now' random' original' →
  now = now' ∧ random = random'.
Proof.
  unfold Storage.filename. intros -> H%append_cancel_r.
  apply dash_splits in H as [H1 H2]; [|apply pretty_N_dashless..].
  split; by apply (inj pretty).
Qed.

(** X16: an upload is stored in the [uploads] directory, apart from every
    path a merge works on; so a merge, whatever its clips and however it
    ends, leaves every stored upload as it was. *)
Theorem merge_leaves_uploads ffprobe ffmpeg videoFiles musicFile w
    now random original :
  let upload := Storage.stored cwd extname now random original in
  (path upload ∉ artifacts cwd (length videoFiles)) ∧
  files (Media.mergeVideosWithMusic cwd ffprobe ffmpeg videoFiles
           musicFile w).2 !! path upload
  = files w !! path upload.
Proof.
  intros upload.
  assert (Hout : path upload ∉ artifacts cwd (length videoFiles)).
  { unfold upload, Storage.stored, Storage.destination, path_join. simpl.
    rewrite append_assoc. unfold artifacts.
    intros [Hin|Hin]%elem_of_app.
    - apply list_elem_of_fmap in Hin as (i & Hi & _).
      rewrite processedPath_eq in Hi. apply append_cancel_l in Hi.
      discriminate Hi.
    - apply list_elem_of_In in Hin.
      rewrite listPath_eq, concatenatedPath_eq, outputPath_eq in Hin.
      destruct Hin as [H|[H|[H|[]]]]; apply append_cancel_l in H;
        discriminate H. }
  split; [exact Hout|].
  exact (keeps_outside_merge cwd ffprobe ffmpeg videoFiles musicFile w _ _ _
           (surjective_pairing _) Hout).
Qed.

End Uploads.

(** ** The selection of the files in the browser *)

Section Selection.

Variable number : Type.
Variable zero : number.
Variable add : number → number → number.
Variable getVideoDuration : App.BrowserFile → option number.
Variable generateThumbnail : App.BrowserFile → option string.
Variable createObjectURL : App.BrowserFile → string.

Local Abbreviation describe :=
  (App.describe number getVideoDuration generateThumbnail createObjectURL).
Local Abbreviation onDrop :=
  (App.onDrop number zero add getVideoDuration generateThumbnail
     createObjectURL).

Lemma describe_file f v : describe f = Some v → App.file number v = f.
Proof.
  unfold App.describe.
  destruct (getVideoDuration f), (generateThumbnail f); simpl; [|done..].
  by intros [= <-].
Qed.

Lemma mapM_describe_loaded l :
  (∀ f, f ∈ l → is_Some (getVideoDuration f) ∧ is_Some (generateThumbnail f)) →
  ∃ newVideos, mapM describe l = Some newVideos ∧
               map (App.file number) newVideos = l.
Proof.
  induction l as [|f l IH]; intros Hl; [by exists []|].
  destruct IH as (vs & Hvs & Hfiles).
  { intros g Hg. apply Hl. by apply list_elem_of_further. }
  destruct (Hl f (list_elem_of_here _ _)) as [[d Hd] [t Ht]].
  assert (∃ v, describe f = Some v) as [v Hv].
  { unfold App.describe. rewrite Hd, Ht. simpl. by eexists. }
  exists (v :: vs). split.
  - change (mapM describe (f :: l))
      with (y ← describe f; k ← mapM describe l; mret (y :: k)).
    by rewrite Hv, Hvs.
  - simpl. by rewrite (describe_file _ _ Hv), Hfiles.
Qed.

Lemma mapM_describe_blocked l f :
  f ∈ l → getVideoDuration f = None ∨ generateThumbnail f = None →
  mapM describe l = None.
Proof.
  intros Hf Hnone. induction l as [|g l IH]; [by apply elem_of_nil in Hf|].
  change (mapM describe (g :: l))
    with (y ← describe g; k ← mapM describe l; mret (y :: k)).
  apply elem_of_cons in Hf as [<-|Hf].
  - assert (Hd : describe f = None).
    { unfold App.describe.
      destruct Hnone as [-> | ->]; [done|]. by destruct (getVideoDuration f). }
    by rewrite Hd.
  - rewrite (IH Hf). by destruct (describe g).
Qed.

Lemma filter_nonempty {A} (p : A → bool) l x :
  x ∈ l → p x = true → (0 <? length (List.filter p l)) = true.
Proof.
  intros Hx Hp. apply Nat.ltb_lt.
  assert (Hin : In x (List.filter p l)).
  { apply filter_In. split; [by apply list_elem_of_In | done]. }
  destruct (List.filter p l); [done | simpl; lia].
Qed.

(** X17: a drop whose videos all load keeps the videos selected so far
    and adds, behind them and in the order of the drop, the files whose
    MIME type starts with [video/]; files of other types add no video.
    Of the files whose type starts with [audio/] only the first counts: it
    becomes the music when its duration is read, and the music stays as it
    was otherwise. *)
Theorem drop_adds_in_order acceptedFiles st :
  (∀ f, f ∈ acceptedFiles → App.isVideo f = true →
        is_Some (getVideoDuration f) ∧ is_Some (generateThumbnail f)) →
  map (App.file number) (App.videos number (onDrop acceptedFiles st))
    = map (App.file number) (App.videos number st)
      ++ List.filter App.isVideo acceptedFiles ∧
  App.music_file number <$> App.music number (onDrop acceptedFiles st)
    = match List.filter App.isAudio acceptedFiles with
      | audioFile :: _ =>
          if getVideoDuration audioFile is Some _ then Some audioFile
          else App.music_file number <$> App.music number st
      | [] => App.music_file number <$> App.music number st
      end.
Proof.
  intros Hload. unfold App.onDrop.
  destruct (mapM_describe_loaded (List.filter App.isVideo acceptedFiles))
    as (newVideos & Hnew & Hfiles).
  { intros f [Hf Hv]%list_elem_of_In%filter_In.
    apply Hload; [by apply list_elem_of_In | done]. }
  rewrite Hnew. simpl.
  destruct (0 <? length (List.filter App.isVideo acceptedFiles)) eqn:Hlen.
  - destruct (List.filter App.isAudio acceptedFiles) as [|a rest].
    + simpl. by rewrite map_app, Hfiles.
    + destruct (getVideoDuration a); simpl; by rewrite map_app, Hfiles.
  - apply Nat.ltb_ge in Hlen.
    destruct (List.filter App.isVideo acceptedFiles); [|simpl in Hlen; lia].
    rewrite app_nil_r.
    destruct (List.filter App.isAudio acceptedFiles) as [|a rest]; [done|].
    by destruct (getVideoDuration a).
Qed.

(** X18: one dropped video whose metadata or first frame never loads
    holds up the whole drop: no video of the drop is added, the total
    duration stays, and the music of the drop is not taken either; only
    the error shown is cleared. *)
Theorem drop_blocked_by_one acceptedFiles st f :
  f ∈ acceptedFiles → App.isVideo f = true →
  getVideoDuration f = None ∨ generateThumbnail f = None →
  onDrop acceptedFiles st = App.setError number "" st.
Proof.
  intros Hf Hv Hnone. unfold App.onDrop.
  rewrite (filter_nonempty _ _ _ Hf Hv).
  rewrite (mapM_describe_blocked (List.filter App.isVideo acceptedFiles) f);
    [done| |done].
  apply list_elem_of_In, filter_In. split; [by apply list_elem_of_In | done].
Qed.

(** X19: [handleSubmit] sends nothing without a video or without music,
    and shows why.  Otherwise it posts one form that lists under [videos]
    every selected video, however many there are, in the order of the
    selection, and under [music] the one music file, last. *)
Theorem submit_lists_selection (st : App.State number) :
  match App.handleSubmit number st with
  | (st', None) =>
      (App.videos number st = [] ∨ App.music number st = None) ∧
      App.error number st'
        = "Please select at least one video and one music file"
  | (st', Some form) =>
      ∃ m, App.music number st = Some m ∧
           App.videos number st ≠ [] ∧
           form = map (λ v, ("videos", App.file number v)) (App.videos number st)
                  ++ [("music", App.music_file number m)] ∧
           (filter (λ p, p.1 = "videos") form).*2
             = map (App.file number) (App.videos number st) ∧
           (filter (λ p, p.1 = "music") form).*2 = [App.music_file number m]
  end.
Proof.
  unfold App.handleSubmit.
  destruct (App.videos number st) as [|v vs] eqn:Hvs.
  { split; [by left | done]. }
  destruct (App.music number st) as [m|] eqn:Hm.
  2: { split; [by right | done]. }
  exists m. split; [done|]. split; [done|]. split; [done|].
  rewrite !filter_app, !fmap_app.
  assert (Hv : ∀ l : list (App.VideoFile number),
    filter (λ p : string * App.BrowserFile, p.1 = "videos")
      (map (λ v, ("videos", App.file number v)) l)
    = map (λ v, ("videos", App.file number v)) l).
  { induction l as [|x l IH]; [done|]. simpl.
    rewrite filter_cons_True by done. by rewrite IH. }
  assert (Hmu : ∀ l : list (App.VideoFile number),
    filter (λ p : string * App.BrowserFile, p.1 = "music")
      (map (λ v, ("videos", App.file number v)) l) = []).
  { induction l as [|x l IH]; [done|]. simpl.
    rewrite filter_cons_False by done. exact IH. }
  assert (Hfst : ∀ l : list (App.VideoFile number),
    (map (λ v, ("videos", App.file number v)) l).*2 = map (App.file number) l).
  { induction l as [|x l IH]; [done|].
    exact (f_equal (cons (App.file number x)) IH). }
  rewrite Hv, Hmu, Hfst. split.
  - rewrite filter_cons_False, filter_nil by done. by rewrite app_nil_r.
  - by rewrite filter_cons_True by done.
Qed.

End Selection.

(** ** More on the stages *)

Lemma after_runs_cons cmd cmds w :
  after_runs (cmd :: cmds) w
  = after_runs cmds (store (output cmd) (Product cmd) (log (Run cmd) w)).
Proof. reflexivity. Qed.

Lemma files_after_runs_keep cmds w file :
  file ∉ map output cmds →
  files (after_runs cmds w) !! file = files w !! file.
Proof.
  revert w. induction cmds as [|cmd cmds IH]; intros w Hfile; [done|].
  rewrite after_runs_cons, IH.
  - simpl. apply lookup_insert_ne. intros Heq. apply Hfile. simpl.
    rewrite Heq. apply list_elem_of_here.
  - intros Hin. apply Hfile. simpl. by apply list_elem_of_further.
Qed.

Lemma lookup_after_encodes cwd videoFiles i w k video :
  videoFiles !! k = Some video →
  files (after_runs (encodes cwd i videoFiles) w)
    !! Media.processedPath cwd (i + k)
  = Some (Product (Media.processCommand (path video)
                     (Media.processedPath cwd (i + k)))).
Proof.
  revert i w k. induction videoFiles as [|v rest IH]; intros i w k Hk;
    [done|].
  rewrite encodes_cons, after_runs_cons. destruct k as [|k].
  - injection Hk as ->. rewrite Nat.add_0_r, files_after_runs_keep.
    + simpl. apply lookup_insert_eq.
    + rewrite output_encodes.
      intros (j & Hj%processedPath_inj & Hin%elem_of_seq)%list_elem_of_fmap.
      lia.
  - rewrite Nat.add_succ_r. apply (IH (S i)). exact Hk.
Qed.

Section MoreStages.

Variable cwd : string.
Variable ffprobe : World → string → Exit Metadata.
Variable ffmpeg : World → Command → Exit unit.

(** X20: [mergeVideosWithMusic] has no check of its own for an empty list
    of clips: once the music is validated it writes an empty manifest and
    runs the concat over it. *)
Theorem empty_clip_list_reaches_concat musicFile w w1 :
  Media.validateMusic ffprobe musicFile w = (Resolved tt, w1) →
  ∃ o w' rest,
    Media.mergeVideosWithMusic cwd ffprobe ffmpeg [] musicFile w = (o, w') ∧
    trace w' = trace w
               ++ [Probe (path musicFile);
                   WriteFile (Media.listPath cwd) "";
                   Run (Media.concatCommand cwd)]
               ++ rest.
Proof.
  intros Hm. rewrite merge_unfold.
  pose proof (validateMusic_world _ _ _ _ _ Hm) as Hw1.
  rewrite (await_resolved _ _ w tt w) by reflexivity.
  rewrite (await_resolved _ _ _ _ _ Hm).
  rewrite (await_resolved _ _ w1 [] w1) by reflexivity.
  rewrite (await_resolved _ _ w1 tt
             (store (Media.listPath cwd) (Text "")
                (log (WriteFile (Media.listPath cwd) "") w1)))
    by reflexivity.
  remember (store (Media.listPath cwd) (Text "")
              (log (WriteFile (Media.listPath cwd) "") w1)) as w2 eqn:Hw2.
  assert (Ht : trace w2 = trace w ++ [Probe (path musicFile);
                                      WriteFile (Media.listPath cwd) ""]).
  { rewrite Hw2, Hw1. simpl. by rewrite <- app_assoc. }
  clear Hw2. rewrite await_eq, run_eq.
  destruct (ffmpeg w2 (Media.concatCommand cwd)) as [[]|err|].
  - rewrite await_eq, run_eq.
    destruct (ffmpeg _ (Media.muxCommand cwd musicFile)) as [[]|err|].
    + rewrite await_eq, unlinkAll_eq. eexists _, _, _. split; [reflexivity|].
      rewrite trace_after_unlinks. simpl. rewrite Ht, <- !app_assoc.
      reflexivity.
    + eexists _, _, _. split; [reflexivity|]. simpl.
      rewrite Ht, <- !app_assoc. reflexivity.
    + eexists _, _, _. split; [reflexivity|]. simpl.
      rewrite Ht, <- !app_assoc. reflexivity.
  - eexists _, _, []. split; [reflexivity|]. simpl.
    rewrite Ht, <- !app_assoc. reflexivity.
  - eexists _, _, []. split; [reflexivity|]. simpl.
    rewrite Ht, <- !app_assoc. reflexivity.
Qed.

(** X21: the batch of clips passes validation exactly when each clip
    passes in its turn, that is, in the world in which the clips before
    it have been probed. *)
Theorem batch_accepted_iff videoFiles w :
  (Media.validateVideos ffprobe videoFiles w).1 = Resolved tt ↔
  ∀ i file, videoFiles !! i = Some file →
    (Media.validateVideo ffprobe file
       (after_probes (take i videoFiles) w)).1 = Resolved tt.
Proof.
  revert w. induction videoFiles as [|v rest IH]; intros w.
  - split; [by intros _ i file Hi | done].
  - change (Media.validateVideos ffprobe (v :: rest))
      with (Media.validateVideo ffprobe v;; Media.validateVideos ffprobe rest).
    rewrite await_eq.
    destruct (Media.validateVideo ffprobe v w) as [[[]|e|] w1] eqn:Hv.
    + pose proof (validateVideo_world _ _ _ _ _ Hv) as ->. rewrite IH. split.
      * intros H [|i] file Hi.
        -- injection Hi as <-. simpl. by rewrite after_probes_nil, Hv.
        -- simpl. rewrite after_probes_cons. by apply H.
      * intros H i file Hi. specialize (H (S i) file Hi).
        simpl in H. by rewrite after_probes_cons in H.
    + split; [done|]. intros H. specialize (H 0 v eq_refl).
      simpl in H. by rewrite after_probes_nil, Hv in H.
    + split; [done|]. intros H. specialize (H 0 v eq_refl).
      simpl in H. by rewrite after_probes_nil, Hv in H.
Qed.

(** X22: when the normalization of all clips has finished, the path
    returned at position [i] is [processed_<i>.mp4], and that file holds
    the product of normalizing the clip at position [i]: no later clip has
    overwritten it. *)
Theorem normalized_intermediates videoFiles w ps w' i video :
  Media.processVideos cwd ffmpeg videoFiles 0 [] w = (Resolved ps, w') →
  videoFiles !! i = Some video →
  ps !! i = Some (Media.processedPath cwd i) ∧
  files w' !! Media.processedPath cwd i
  = Some (Product (Media.processCommand (path video)
                     (Media.processedPath cwd i))).
Proof.
  intros [-> ->]%processVideos_resolved Hi. split.
  - simpl. rewrite list_lookup_fmap, lookup_seq_lt; [done|].
    by eapply lookup_lt_Some.
  - exact (lookup_after_encodes cwd videoFiles 0 w i video Hi).
Qed.

End MoreStages.


(** ** The further properties on sample inputs *)

Ltac in_list := apply list_elem_of_In; vm_compute; auto 12.
Ltac not_in_list :=
  let H := fresh in
  intros H; apply list_elem_of_In in H; vm_compute in H;
  repeat (destruct H as [H|H]; [discriminate H|]); exact H.




Lemma validation_comes_first_witness :
  let r := Media.mergeVideosWithMusic "/srv" (Sample.probe_as Sample.hd1080)
             More.ffmpeg_fail_second [Sample.clipA; Sample.clipB] Sample.song
             Sample.disk in
  let ev := Run (Media.processCommand (path Sample.clipA)
                   "/srv/temp/processed_0.mp4") in
  ev ∈ events_since Sample.disk r.2 ∧
  map (λ f, Probe (path f)) [Sample.clipA; Sample.clipB; Sample.song]
    `prefix_of` events_since Sample.disk r.2.
Proof.
  intros r ev.
  assert (Hev : ev ∈ events_since Sample.disk r.2) by in_list.
  split; [exact Hev|].
  exact (validation_comes_first "/srv" (Sample.probe_as Sample.hd1080)
           More.ffmpeg_fail_second [Sample.clipA; Sample.clipB] Sample.song
           Sample.disk ev Hev (λ file H, eq_ind ev
             (λ e, match e with Run _ => True | _ => False end) I _ H)).
Defined.

Lemma merge_touches_only_artifacts_witness :
  (path Sample.clipA ∉ artifacts "/srv" 2) ∧
  files (Media.mergeVideosWithMusic "/srv" (Sample.probe_as Sample.hd1080)
           Sample.ffmpeg_ok [Sample.clipA; Sample.clipB] Sample.song
           Sample.disk).2 !! path Sample.clipA
  = Some (Blob "beach").
Proof.
  assert (H : path Sample.clipA ∉ artifacts "/srv" 2) by not_in_list.
  split; [exact H|].
  exact (merge_touches_only_artifacts "/srv" (Sample.probe_as Sample.hd1080)
           Sample.ffmpeg_ok [Sample.clipA; Sample.clipB] Sample.song
           Sample.disk (path Sample.clipA) H).
Defined.

Lemma normalization_fail_fast_witness :
  let probe := Sample.probe_as Sample.hd1080 in
  let clips := [Sample.clipA; Sample.clipB] in
  let w1 := after_probes [Sample.clipA; Sample.clipB; Sample.song] Sample.disk in
  let r := Media.processVideos "/srv" More.ffmpeg_fail_second clips 0 [] w1 in
  r.1 = Rejected "ffmpeg exited with code 1" ∧
  Media.mergeVideosWithMusic "/srv" probe More.ffmpeg_fail_second clips
    Sample.song Sample.disk
  = (Rejected "Video merge failed: ffmpeg exited with code 1", r.2).
Proof.
  intros probe clips w1 r.
  assert (Hv : (Media.validateVideos probe clips;;
                Media.validateMusic probe Sample.song) Sample.disk
               = (Resolved tt, w1)) by (vm_compute; reflexivity).
  assert (Hn : r = (Rejected "ffmpeg exited with code 1", r.2))
    by (vm_compute; reflexivity).
  split; [by rewrite Hn|].
  exact (proj2 (normalization_fail_fast "/srv" probe More.ffmpeg_fail_second
                  clips Sample.song Sample.disk w1 _ r.2 Hv Hn)).
Defined.

Lemma successful_merge_files_witness :
  let r := Media.mergeVideosWithMusic "/srv" (Sample.probe_as Sample.hd1080)
             Sample.ffmpeg_ok [Sample.clipA] Sample.song Sample.disk in
  r.1 = Resolved "/srv/outputs/merged.mp4" ∧
  files r.2 !! "/srv/temp/processed_0.mp4" = None ∧
  files r.2 !! path Sample.song = Some (Blob "tune").
Proof.
  intros r.
  assert (H : r = (Resolved "/srv/outputs/merged.mp4", r.2))
    by (vm_compute; reflexivity).
  destruct (successful_merge_files "/srv" (Sample.probe_as Sample.hd1080)
              Sample.ffmpeg_ok [Sample.clipA] Sample.song Sample.disk _ r.2 H)
    as [_ Hfiles].
  split; [by rewrite H|]. split.
  - rewrite Hfiles. reflexivity.
  - rewrite Hfiles. reflexivity.
Defined.

Lemma handler_checks_witness :
  Server.mergeRoute "/srv" (Sample.probe_as Sample.hd1080) Sample.ffmpeg_ok
    More.upload_no_music Sample.disk
  = (Resolved (Server.Json 400 "No music file uploaded" None), Sample.disk).
Proof.
  destruct (Server.upload_fields Server.mergeFields More.upload_no_music)
    as [err|reqFiles] eqn:Hup; [discriminate Hup|].
  exact (proj2 (handler_checks "/srv" (Sample.probe_as Sample.hd1080)
                  Sample.ffmpeg_ok [("videos", Sample.clipA)] reqFiles
                  Sample.disk Hup)).
Defined.


Lemma download_removes_uploads_witness :
  let r := Server.mergeRoute "/srv" (Sample.probe_as Sample.hd1080)
             Sample.ffmpeg_ok Sample.upload Sample.disk in
  r.1 = Resolved (Server.Download "/srv/outputs/merged.mp4" "merged.mp4") ∧
  files r.2 !! path Sample.clipA = None ∧
  files r.2 !! path Sample.song = None.
Proof.
  intros r.
  assert (H : r = (Resolved (Server.Download "/srv/outputs/merged.mp4"
                               "merged.mp4"), r.2))
    by (vm_compute; reflexivity).
  destruct (download_removes_uploads "/srv" (Sample.probe_as Sample.hd1080)
              Sample.ffmpeg_ok _ Sample.disk _ _ r.2 H) as [Hup _].
  split; [by rewrite H|]. split.
  - apply (Hup ("videos", Sample.clipA)). in_list.
  - apply (Hup ("music", Sample.song)). in_list.
Defined.

Lemma filename_injective_witness :
  Storage.filename (λ _, ".mp4") 1700000000000 42 "beach.mp4"
    = "1700000000000-42.mp4" ∧
  (1700000000000 = 1700000000000 ∧ 42 = 42)%N.
Proof.
  split; [vm_compute; reflexivity|].
  exact (filename_injective (λ _, ".mp4") 1700000000000 42 "beach.mp4"
           1700000000000 42 "city.mp4" eq_refl eq_refl).
Defined.

Lemma drop_adds_in_order_witness :
  let st := App.onDrop nat 0 Nat.add More.duration_of More.thumbnail_of
              More.url_of More.dropped More.fresh in
  map (App.name ∘ App.file nat) (App.videos nat st) = ["beach.mp4"; "city.webm"] ∧
  App.name <$> (App.music_file nat <$> App.music nat st) = Some "tune.mp3".
Proof.
  intros st.
  destruct (drop_adds_in_order nat 0 Nat.add More.duration_of
              More.thumbnail_of More.url_of More.dropped More.fresh)
    as [Hv Hm].
  { intros f Hf _. apply list_elem_of_In in Hf. simpl in Hf.
    repeat (destruct Hf as [<-|Hf]; [split; by eexists|]). destruct Hf. }
  split.
  - rewrite <- (map_map (App.file nat) App.name). fold st in Hv.
    rewrite Hv. reflexivity.
  - fold st in Hm. rewrite Hm. reflexivity.
Defined.

Lemma drop_blocked_by_one_witness :
  let st := App.onDrop nat 0 Nat.add More.duration_of More.thumbnail_of
              More.url_of (More.dropped ++ [More.broken]) More.fresh in
  App.videos nat st = [] ∧ App.music nat st = None ∧ App.error nat st = "".
Proof.
  intros st.
  assert (H : st = App.setError nat "" More.fresh).
  { apply (drop_blocked_by_one nat 0 Nat.add More.duration_of
             More.thumbnail_of More.url_of _ More.fresh More.broken).
    - in_list.
    - reflexivity.
    - left. reflexivity. }
  by rewrite H.
Defined.

Lemma empty_clip_list_reaches_concat_witness :
  ∃ o w' rest,
    Media.mergeVideosWithMusic "/srv" (Sample.probe_as Sample.hd1080)
      Sample.ffmpeg_ok [] Sample.song Sample.disk = (o, w') ∧
    trace w' = trace Sample.disk
               ++ [Probe (path Sample.song);
                   WriteFile (Media.listPath "/srv") "";
                   Run (Media.concatCommand "/srv")]
               ++ rest.
Proof.
  exact (empty_clip_list_reaches_concat "/srv" (Sample.probe_as Sample.hd1080)
           Sample.ffmpeg_ok Sample.song Sample.disk
           (log (Probe (path Sample.song)) Sample.disk) eq_refl).
Defined.

Lemma normalized_intermediates_witness :
  let r := Media.processVideos "/srv" Sample.ffmpeg_ok
             [Sample.clipA; Sample.clipB] 0 [] Sample.disk in
  files r.2 !! "/srv/temp/processed_1.mp4"
  = Some (Product (Media.processCommand (path Sample.clipB)
                     "/srv/temp/processed_1.mp4")).
Proof.
  intros r.
  assert (H : r = (Resolved ["/srv/temp/processed_0.mp4";
                             "/srv/temp/processed_1.mp4"], r.2))
    by (vm_compute; reflexivity).
  exact (proj2 (normalized_intermediates "/srv" Sample.ffmpeg_ok
                  [Sample.clipA; Sample.clipB] Sample.disk _ r.2 1
                  Sample.clipB H eq_refl)).
Defined.
